(** * Camera component of the insect detector: permission state machine,
      stream ownership and the frame-sampling loop.

    The development embeds the second (current) revision of the [Camera]
    React component: [stopCurrentStream], [requestCameraPermission], the
    mount effect [checkCameraAvailability], the render branches and the
    sampling effect with [processFrame].  Platform calls (getUserMedia,
    enumerateDevices, permissions.query, localStorage, requestAnimationFrame)
    are answered by explicit inputs; JavaScript exceptions are values of an
    error monad whose state survives a throw.

    It also embeds the first revision of the component (module
    [FirstRevision]) and the page that hosts the component (module [Home]):
    model loading, the [onFrame] callback and its tensors. *)

From stdpp Require Import base strings list gmap.
From Stdlib Require Import Lia.

Local Open Scope string_scope.

(** ** JavaScript effects: state that survives an exception *)

(** A thrown value; the component only ever inspects [(err as Error).name]. *)
Record JsError := { err_name : string }.

Definition M (St A : Type) : Type := St -> (JsError + A) * St.

Definition ret {St A} (a : A) : M St A := fun s => (inr a, s).

Definition bind {St A B} (m : M St A) (k : A -> M St B) : M St B :=
  fun s =>
    match m s with
    | (inr a, s') => k a s'
    | (inl e, s') => (inl e, s')
    end.

Definition throw {St A} (e : JsError) : M St A := fun s => (inl e, s).

(** [try { body } catch (e) { handler e }] *)
Definition try_catch {St A} (body : M St A) (handler : JsError -> M St A) : M St A :=
  fun s =>
    match body s with
    | (inl e, s') => handler e s'
    | (inr a, s') => (inr a, s')
    end.

Definition gets {St A} (f : St -> A) : M St A := fun s => (inr (f s), s).
Definition modify {St} (f : St -> St) : M St unit := fun s => (inr tt, f s).

Declare Scope js_scope.
Delimit Scope js_scope with js.
Notation "'do' x <- m ; k" := (bind m (fun x => k))
  (at level 10, x name, m at level 100, k at level 200) : js_scope.
Notation "m ;; k" := (bind m (fun _ => k))
  (at level 100, k at level 200, right associativity, only parsing) : js_scope.
Local Open Scope js_scope.

(** [list.forEach(f)] *)
Fixpoint forEach {St A} (l : list A) (f : A -> M St unit) : M St unit :=
  match l with
  | [] => ret tt
  | x :: l' => f x ;; forEach l' f
  end.

(** ** Data model *)

Inductive PermissionState := prompt | granted | denied.

Inductive MediaDeviceKind := videoinput | audioinput | audiooutput.

(** [MediaStreamTrack.readyState] *)
Inductive TrackState := live | ended.

(** A media stream is a handle on capture tracks; the tracks themselves live
    in the browser (field [tracks] below), so stopping a track is seen through
    every handle. *)
Record MediaStream := { stream_id : nat; stream_tracks : list nat }.

Record HTMLVideoElement := { srcObject : option MediaStream }.

Definition Pixel : Type := nat * nat * nat * nat.

Record HTMLCanvasElement := {
  canvas_width : nat;
  canvas_height : nat;
  bitmap : nat -> nat -> Pixel
}.

Inductive LogEntry :=
| console_error (msg : string)
| console_warn (msg : string).

Inductive PlatformCall :=
| call_getItem (key : string)
| call_setItem (key value : string)
| call_enumerateDevices
| call_permissions_query
| call_getUserMedia.

(** How the promise of [getUserMedia] settles: with a new stream of
    [ntracks] tracks, or rejected. *)
Inductive Settled :=
| Resolved (ntracks : nat)
| Rejected (e : JsError).

(** The hooks of the component: three refs and three state cells. *)
Record Camera := {
  videoRef : option HTMLVideoElement;
  canvasRef : option HTMLCanvasElement;
  streamRef : option MediaStream;
  error : string;
  isCameraAvailable : bool;
  permissionStatus : PermissionState
}.

(** What the component touches outside itself. *)
Record Browser := {
  localStorage : gmap string string;
  storage_readable : bool;         (* false: getItem throws *)
  storage_writable : bool;         (* false: setItem throws *)
  tracks : gmap nat TrackState;    (* every track ever handed out *)
  next_track : nat;
  streams : list MediaStream;      (* every stream getUserMedia resolved with *)
  console : list LogEntry;
  calls : list PlatformCall;
  permission_listener : bool       (* the 'change' listener of line 218 *)
}.

Record World := { cam : Camera; browser : Browser }.

#[global] Instance PermissionState_eq_dec : EqDecision PermissionState.
Proof. solve_decision. Defined.
#[global] Instance MediaDeviceKind_eq_dec : EqDecision MediaDeviceKind.
Proof. solve_decision. Defined.
#[global] Instance TrackState_eq_dec : EqDecision TrackState.
Proof. solve_decision. Defined.
#[global] Instance MediaStream_eq_dec : EqDecision MediaStream.
Proof. solve_decision. Defined.

(** *** Field updates *)

Definition with_cam (f : Camera -> Camera) (w : World) : World :=
  {| cam := f (cam w); browser := browser w |}.

Definition with_browser (f : Browser -> Browser) (w : World) : World :=
  {| cam := cam w; browser := f (browser w) |}.

Definition put_videoRef (v : option HTMLVideoElement) (c : Camera) : Camera :=
  {| videoRef := v; canvasRef := canvasRef c; streamRef := streamRef c;
     error := error c; isCameraAvailable := isCameraAvailable c;
     permissionStatus := permissionStatus c |}.

Definition put_canvasRef (v : option HTMLCanvasElement) (c : Camera) : Camera :=
  {| videoRef := videoRef c; canvasRef := v; streamRef := streamRef c;
     error := error c; isCameraAvailable := isCameraAvailable c;
     permissionStatus := permissionStatus c |}.

Definition put_streamRef (s : option MediaStream) (c : Camera) : Camera :=
  {| videoRef := videoRef c; canvasRef := canvasRef c; streamRef := s;
     error := error c; isCameraAvailable := isCameraAvailable c;
     permissionStatus := permissionStatus c |}.

Definition put_error (e : string) (c : Camera) : Camera :=
  {| videoRef := videoRef c; canvasRef := canvasRef c; streamRef := streamRef c;
     error := e; isCameraAvailable := isCameraAvailable c;
     permissionStatus := permissionStatus c |}.

Definition put_isCameraAvailable (b : bool) (c : Camera) : Camera :=
  {| videoRef := videoRef c; canvasRef := canvasRef c; streamRef := streamRef c;
     error := error c; isCameraAvailable := b;
     permissionStatus := permissionStatus c |}.

Definition put_permissionStatus (p : PermissionState) (c : Camera) : Camera :=
  {| videoRef := videoRef c; canvasRef := canvasRef c; streamRef := streamRef c;
     error := error c; isCameraAvailable := isCameraAvailable c;
     permissionStatus := p |}.

Definition put_localStorage (m : gmap string string) (b : Browser) : Browser :=
  {| localStorage := m; storage_readable := storage_readable b;
     storage_writable := storage_writable b; tracks := tracks b;
     next_track := next_track b; streams := streams b; console := console b;
     calls := calls b; permission_listener := permission_listener b |}.

Definition put_tracks (t : gmap nat TrackState) (b : Browser) : Browser :=
  {| localStorage := localStorage b; storage_readable := storage_readable b;
     storage_writable := storage_writable b; tracks := t;
     next_track := next_track b; streams := streams b; console := console b;
     calls := calls b; permission_listener := permission_listener b |}.

Definition put_console (l : list LogEntry) (b : Browser) : Browser :=
  {| localStorage := localStorage b; storage_readable := storage_readable b;
     storage_writable := storage_writable b; tracks := tracks b;
     next_track := next_track b; streams := streams b; console := l;
     calls := calls b; permission_listener := permission_listener b |}.

Definition put_calls (l : list PlatformCall) (b : Browser) : Browser :=
  {| localStorage := localStorage b; storage_readable := storage_readable b;
     storage_writable := storage_writable b; tracks := tracks b;
     next_track := next_track b; streams := streams b; console := console b;
     calls := l; permission_listener := permission_listener b |}.

Definition put_permission_listener (x : bool) (b : Browser) : Browser :=
  {| localStorage := localStorage b; storage_readable := storage_readable b;
     storage_writable := storage_writable b; tracks := tracks b;
     next_track := next_track b; streams := streams b; console := console b;
     calls := calls b; permission_listener := x |}.

(** A resolved [getUserMedia] hands out a stream whose tracks are new and
    live. *)
Definition new_stream (n : nat) (b : Browser) : MediaStream :=
  {| stream_id := length (streams b); stream_tracks := seq (next_track b) n |}.

Definition add_stream (n : nat) (b : Browser) : Browser :=
  {| localStorage := localStorage b; storage_readable := storage_readable b;
     storage_writable := storage_writable b;
     tracks := foldr (fun t m => <[t := live]> m) (tracks b) (seq (next_track b) n);
     next_track := next_track b + n;
     streams := streams b ++ [new_stream n b];
     console := console b;
     calls := calls b; permission_listener := permission_listener b |}.

(** ** Platform operations *)

Definition log_call (c : PlatformCall) : M World unit :=
  modify (with_browser (fun b => put_calls (calls b ++ [c]) b)).

Definition console_log (e : LogEntry) : M World unit :=
  modify (with_browser (fun b => put_console (console b ++ [e]) b)).

(** [localStorage.getItem(key)]: [None] is JavaScript's [null]. *)
Definition localStorage_getItem (key : string) : M World (option string) :=
  log_call (call_getItem key) ;;
  do readable <- gets (fun w => storage_readable (browser w)) ;
  if readable then gets (fun w => localStorage (browser w) !! key)
  else throw {| err_name := "SecurityError" |}.

(** [localStorage.setItem(key, value)]: throws when the storage is full or
    disabled. *)
Definition localStorage_setItem (key value : string) : M World unit :=
  log_call (call_setItem key value) ;;
  do writable <- gets (fun w => storage_writable (browser w)) ;
  if writable
  then modify (with_browser (fun b => put_localStorage (<[key := value]> (localStorage b)) b))
  else throw {| err_name := "QuotaExceededError" |}.

(** [track.stop()] *)
Definition track_stop (t : nat) : M World unit :=
  modify (with_browser (fun b => put_tracks (<[t := ended]> (tracks b)) b)).

(** [navigator.mediaDevices.getUserMedia(...)] up to the point where the
    promise is pending, and the settling of that promise. *)
Definition getUserMedia_request : M World unit := log_call call_getUserMedia.

Definition getUserMedia_settle (o : Settled) : M World MediaStream :=
  match o with
  | Resolved n =>
      do s <- gets (fun w => new_stream n (browser w)) ;
      modify (with_browser (add_stream n)) ;;
      ret s
  | Rejected e => throw e
  end.

(** ** State setters of the component *)

Definition setError (e : string) : M World unit := modify (with_cam (put_error e)).
Definition setIsCameraAvailable (b : bool) : M World unit :=
  modify (with_cam (put_isCameraAvailable b)).
Definition setPermissionStatus (p : PermissionState) : M World unit :=
  modify (with_cam (put_permissionStatus p)).

(** ** Rendering (the four return branches of the component) *)

Inductive View := NoCameraPanel | PromptPanel | DeniedPanel | VideoView.

#[global] Instance View_eq_dec : EqDecision View.
Proof. solve_decision. Defined.

Definition render (c : Camera) : View :=
  if negb (isCameraAvailable c) then NoCameraPanel
  else match permissionStatus c with
       | prompt => PromptPanel
       | denied => DeniedPanel
       | granted => VideoView
       end.

Definition blank_video : HTMLVideoElement := {| srcObject := None |}.

Definition blank_canvas : HTMLCanvasElement :=
  {| canvas_width := 300; canvas_height := 150; bitmap := fun _ _ => (0, 0, 0, 0) |}.

(** React commits a render: the refs point at the [<video>] and [<canvas>]
    elements exactly when the committed view contains them; elements that stay
    mounted are kept. *)
Definition attach_refs (c : Camera) : Camera :=
  match render c with
  | VideoView =>
      put_canvasRef (Some (default blank_canvas (canvasRef c)))
        (put_videoRef (Some (default blank_video (videoRef c))) c)
  | _ => put_canvasRef None (put_videoRef None c)
  end.

Definition commit (w : World) : World := with_cam attach_refs w.

(** An [await] on a platform promise: control returns to the event loop, and
    React may commit the pending render before the promise settles. *)
Definition await (rerender : bool) : M World unit :=
  if rerender then modify commit else ret tt.

(** ** The component's functions *)

Definition msg_denied : string :=
  "Acceso a la cámara denegado. Por favor, permite el acceso en la configuración de tu dispositivo.".
Definition msg_generic : string :=
  "Error al acceder a la cámara. Por favor, recarga la página o verifica los permisos del sistema.".
Definition msg_no_camera : string :=
  "No se detectó ninguna cámara. Por favor, verifica que tu dispositivo tenga una cámara disponible.".
Definition msg_check_failed : string :=
  "Error al verificar la cámara. Por favor, asegúrate de que tu navegador tenga acceso a la cámara.".
Definition msg_not_saved : string := "No se pudo guardar el estado del permiso:".

(** Lines 143-148. *)
Definition stopCurrentStream : M World unit :=
  do current <- gets (fun w => streamRef (cam w)) ;
  match current with
  | Some s =>
      forEach (stream_tracks s) track_stop ;;
      modify (with_cam (put_streamRef None))
  | None => ret tt
  end.

(** [videoRef.current.srcObject = stream] *)
Definition attach_stream (s : MediaStream) : M World unit :=
  modify (with_cam (fun c =>
    put_videoRef (option_map (fun _ => {| srcObject := Some s |}) (videoRef c)) c)).

(** The inner [try { localStorage.setItem(...) } catch (e) { console.warn(...) }]. *)
Definition save_permission (value : string) : M World unit :=
  try_catch (localStorage_setItem "cameraPermission" value)
            (fun _ => console_log (console_warn msg_not_saved)).

(** The [catch (err)] block of lines 177-190. *)
Definition request_failed (err : JsError) : M World unit :=
  console_log (console_error "Error accessing camera:") ;;
  if decide (err_name err = "NotAllowedError") then
    setPermissionStatus denied ;;
    setError msg_denied ;;
    save_permission "denied"
  else
    setError msg_generic.

(** Lines 163-176: what runs once the stream has been obtained. *)
Definition request_succeeded (stream : MediaStream) : M World unit :=
  modify (with_cam (put_streamRef (Some stream))) ;;
  do video <- gets (fun w => videoRef (cam w)) ;
  match video with
  | Some _ =>
      attach_stream stream ;;
      setPermissionStatus granted ;;
      setError "" ;;
      save_permission "granted"
  | None => ret tt
  end.

(** Lines 150-191.  [rerender] says whether React commits a render while the
    promise is pending, [o] how the promise settles. *)
Definition requestCameraPermission (rerender : bool) (o : Settled) : M World unit :=
  try_catch
    (stopCurrentStream ;;
     getUserMedia_request ;;
     await rerender ;;
     do stream <- getUserMedia_settle o ;
     request_succeeded stream)
    request_failed.

(** The two halves of [requestCameraPermission] around its [await]: what runs
    synchronously in the caller's turn, and what runs when the promise has
    settled.  Calls that overlap interleave at this point. *)
Definition requestCameraPermission_begin : M World unit :=
  stopCurrentStream ;; getUserMedia_request.

Definition requestCameraPermission_resume (rerender : bool) (o : Settled) : M World unit :=
  try_catch
    (await rerender ;;
     do stream <- getUserMedia_settle o ;
     request_succeeded stream)
    request_failed.

(** *** The mount effect *)

Record MediaDeviceInfo := { kind : MediaDeviceKind }.

(** The answers of the platform during one mount. *)
Record Platform := {
  devices : JsError + list MediaDeviceInfo;          (* enumerateDevices() *)
  permissions : option (JsError + PermissionState);  (* None: no navigator.permissions *)
  acquisition : Settled;                             (* getUserMedia() *)
  rerender : bool
}.

Definition enumerateDevices (p : Platform) : M World (list MediaDeviceInfo) :=
  log_call call_enumerateDevices ;;
  await (rerender p) ;;
  match devices p with
  | inr ds => ret ds
  | inl e => throw e
  end.

Definition permissions_query (p : Platform) (answer : JsError + PermissionState)
  : M World PermissionState :=
  log_call call_permissions_query ;;
  await (rerender p) ;;
  match answer with
  | inr st => ret st
  | inl e => throw e
  end.

Definition is_videoinput (d : MediaDeviceInfo) : bool :=
  bool_decide (kind d = videoinput).

(** Lines 194-233. *)
Definition checkCameraAvailability (p : Platform) : M World unit :=
  try_catch
    (do savedPermission <- localStorage_getItem "cameraPermission" ;
     if decide (savedPermission = Some "granted") then
       requestCameraPermission (rerender p) (acquisition p)
     else
       do devs <- enumerateDevices p ;
       let hasCamera := existsb is_videoinput devs in
       setIsCameraAvailable hasCamera ;;
       if negb hasCamera then
         setError msg_no_camera
       else
         match permissions p with
         | Some answer =>
             do permission <- permissions_query p answer ;
             setPermissionStatus permission ;;
             modify (with_browser (put_permission_listener true)) ;;
             if decide (permission = granted)
             then requestCameraPermission (rerender p) (acquisition p)
             else ret tt
         | None => ret tt
         end)
    (fun _ =>
       console_log (console_error "Error checking camera:") ;;
       setError msg_check_failed).

(** The listener of lines 218-223, run when the platform reports a change. *)
Definition permission_changed (state : PermissionState) (rerender : bool) (o : Settled)
  : M World unit :=
  do listening <- gets (fun w => permission_listener (browser w)) ;
  if listening then
    setPermissionStatus state ;;
    if decide (state = granted) then requestCameraPermission rerender o else ret tt
  else ret tt.

(** The hooks at the first render: [useRef(null)], [useState('')],
    [useState(false)], [useState('prompt')]. *)
Definition initial_camera : Camera :=
  {| videoRef := None; canvasRef := None; streamRef := None; error := "";
     isCameraAvailable := false; permissionStatus := prompt |}.

Definition page_load (storage : gmap string string) (readable writable : bool) : World :=
  {| cam := initial_camera;
     browser := {| localStorage := storage; storage_readable := readable;
                   storage_writable := writable; tracks := ∅; next_track := 0;
                   streams := []; console := []; calls := [];
                   permission_listener := false |} |}.

(** Mounting on a freshly loaded page: the first render is committed, then
    the mount effect runs. *)
Definition mount (p : Platform) (storage : gmap string string) (readable writable : bool)
  : (JsError + unit) * World :=
  checkCameraAvailability p (commit (page_load storage readable writable)).

(** The guard of the sampling effect, line 243. *)
Definition sampling_guard (c : Camera) : bool :=
  bool_decide (is_Some (videoRef c)) && bool_decide (is_Some (canvasRef c))
  && isCameraAvailable c && bool_decide (permissionStatus c = granted).

(** ** Stream accounting *)

Definition track_live (b : Browser) (t : nat) : bool :=
  bool_decide (tracks b !! t = Some live).

Definition stream_live (b : Browser) (s : MediaStream) : bool :=
  existsb (track_live b) (stream_tracks s).

Definition stream_stopped (b : Browser) (s : MediaStream) : bool :=
  forallb (fun t => bool_decide (tracks b !! t = Some ended)) (stream_tracks s).

Definition live_streams (w : World) : list MediaStream :=
  filter (fun s => stream_live (browser w) s = true) (streams (browser w)).

(** Scheduling of calls: a call begins, and later its promise settles. *)
Inductive Step :=
| Begin
| Settle (rerender : bool) (o : Settled).

Definition step (w : World) (a : Step) : World :=
  match a with
  | Begin => snd (requestCameraPermission_begin w)
  | Settle r o => snd (requestCameraPermission_resume r o w)
  end.

Definition exec (l : list Step) (w : World) : World := foldl step w l.

(** [N] calls one after the other, each awaited before the next begins. *)
Definition consecutive (os : list (bool * Settled)) : list Step :=
  flat_map (fun ro => [Begin; Settle (fst ro) (snd ro)]) os.

(** ** The sampling effect (lines 242-270) *)

Module Sampling.

(** What the [<video>] element reports when a callback looks at it. *)
Record VideoState := {
  readyState : nat;
  videoWidth : nat;
  videoHeight : nat;
  frame : nat -> nat -> Pixel      (* the picture being shown *)
}.

Definition HAVE_ENOUGH_DATA : nat := 4.

Record ImageData := { width : nat; height : nat; data : list nat }.

(** One run of the effect body: its closure variable [animationFrame], the
    canvas it draws on, its 'play' listener on the video element, and the
    browser's list of animation-frame callbacks that belong to it (each one is
    [processFrame]).  [delivered] records the calls of [onFrame]. *)
Record Sampler := {
  canvas : HTMLCanvasElement;
  animationFrame : option nat;     (* [None]: still undefined *)
  play_listener : bool;
  callbacks : list nat;
  next_handle : nat;
  delivered : list ImageData
}.

Definition put_canvas (c : HTMLCanvasElement) (s : Sampler) : Sampler :=
  {| canvas := c; animationFrame := animationFrame s; play_listener := play_listener s;
     callbacks := callbacks s; next_handle := next_handle s; delivered := delivered s |}.

Definition put_animationFrame (h : option nat) (s : Sampler) : Sampler :=
  {| canvas := canvas s; animationFrame := h; play_listener := play_listener s;
     callbacks := callbacks s; next_handle := next_handle s; delivered := delivered s |}.

Definition put_callbacks (l : list nat) (s : Sampler) : Sampler :=
  {| canvas := canvas s; animationFrame := animationFrame s; play_listener := play_listener s;
     callbacks := l; next_handle := next_handle s; delivered := delivered s |}.

Definition put_delivered (l : list ImageData) (s : Sampler) : Sampler :=
  {| canvas := canvas s; animationFrame := animationFrame s; play_listener := play_listener s;
     callbacks := callbacks s; next_handle := next_handle s; delivered := l |}.

Definition transparent_black : Pixel := (0, 0, 0, 0).

(** [canvas.width = w] and [canvas.height = h]: assigning a dimension clears
    the bitmap. *)
Definition set_canvas_width (w : nat) : M Sampler unit :=
  modify (fun s => put_canvas {| canvas_width := w; canvas_height := canvas_height (canvas s);
                                 bitmap := fun _ _ => transparent_black |} s).

Definition set_canvas_height (h : nat) : M Sampler unit :=
  modify (fun s => put_canvas {| canvas_width := canvas_width (canvas s); canvas_height := h;
                                 bitmap := fun _ _ => transparent_black |} s).

(** [context.drawImage(video, 0, 0)]: the picture at its native size, from
    the top left corner. *)
Definition drawImage (v : VideoState) : M Sampler unit :=
  modify (fun s =>
    put_canvas {| canvas_width := canvas_width (canvas s);
                  canvas_height := canvas_height (canvas s);
                  bitmap := fun x y =>
                    if (x <? videoWidth v)%nat && (y <? videoHeight v)%nat
                    then frame v x y else bitmap (canvas s) x y |} s).

Definition rgba (p : Pixel) : list nat :=
  match p with (r, g, b, a) => [r; g; b; a] end.

Definition canvas_pixel (c : HTMLCanvasElement) (x y : nat) : Pixel :=
  if (x <? canvas_width c)%nat && (y <? canvas_height c)%nat then bitmap c x y
  else transparent_black.

(** [context.getImageData(0, 0, sw, sh)]: row-major RGBA; a zero width or
    height is an IndexSizeError. *)
Definition getImageData (sw sh : nat) : M Sampler ImageData :=
  if (sw =? 0)%nat || (sh =? 0)%nat then throw {| err_name := "IndexSizeError" |}
  else
    do c <- gets canvas ;
    ret {| width := sw; height := sh;
           data := flat_map (fun y => flat_map (fun x => rgba (canvas_pixel c x y)) (seq 0 sw))
                            (seq 0 sh) |}.

(** The caller's callback; the page's [processFrame] is an async function, so
    the call itself returns normally. *)
Definition onFrame (imageData : ImageData) : M Sampler unit :=
  modify (fun s => put_delivered (delivered s ++ [imageData]) s).

Definition requestAnimationFrame : M Sampler nat :=
  do h <- gets next_handle ;
  modify (fun s => {| canvas := canvas s; animationFrame := animationFrame s;
                      play_listener := play_listener s;
                      callbacks := callbacks s ++ [h];
                      next_handle := S h; delivered := delivered s |}) ;;
  ret h.

(** [cancelAnimationFrame(h)]; an undefined or unknown handle is ignored. *)
Definition cancelAnimationFrame (h : option nat) : M Sampler unit :=
  match h with
  | Some n => modify (fun s => put_callbacks (List.filter (fun k => negb (k =? n)%nat) (callbacks s)) s)
  | None => ret tt
  end.

(** Lines 252-261. *)
Definition processFrame (video : VideoState) : M Sampler unit :=
  (if (readyState video =? HAVE_ENOUGH_DATA)%nat then
     set_canvas_width (videoWidth video) ;;
     set_canvas_height (videoHeight video) ;;
     drawImage video ;;
     do w <- gets (fun s => canvas_width (canvas s)) ;
     do h <- gets (fun s => canvas_height (canvas s)) ;
     do imageData <- getImageData w h ;
     onFrame imageData
   else ret tt) ;;
  do h <- requestAnimationFrame ;
  modify (put_animationFrame (Some h)).

(** Lines 263-265: the 'play' listener. *)
Definition on_play : M Sampler unit :=
  do h <- requestAnimationFrame ;
  modify (put_animationFrame (Some h)).

(** Lines 267-269: the cleanup the effect returns. *)
Definition cleanup : M Sampler unit :=
  do h <- gets animationFrame ;
  cancelAnimationFrame h.

(** The effect body: nothing happens unless the guard passes; otherwise the
    'play' listener is registered on the video element.  The 2d context of a
    canvas that has no other context is never null, so the second early
    return (line 248) is not taken. *)
Definition beginSampling (c : Camera) : option Sampler :=
  if sampling_guard c then
    Some {| canvas := default blank_canvas (canvasRef c); animationFrame := None;
            play_listener := true; callbacks := []; next_handle := 1;
            delivered := [] |}
  else None.

(** What the browser does to the sampler. *)
Inductive Event :=
| play                       (* the video element fires 'play' *)
| tick (video : VideoState)  (* an animation frame is run *)
| endSampling.               (* React runs the effect's cleanup *)

(** Running an animation frame: the callbacks registered so far are taken out
    and run in order; an exception in one is reported and the rest still run. *)
Definition run_callbacks (video : VideoState) (s : Sampler) : Sampler :=
  foldl (fun s' _ => snd (processFrame video s')) (put_callbacks [] s) (callbacks s).

Definition handle (s : Sampler) (e : Event) : Sampler :=
  match e with
  | play => if play_listener s then snd (on_play s) else s
  | tick video => run_callbacks video s
  | endSampling => snd (cleanup s)
  end.

Definition run (es : list Event) (s : Sampler) : Sampler := foldl handle s es.

End Sampling.

(** ** Auxiliary descriptions used in the statements *)

Definition ended_all (l : list nat) (m : gmap nat TrackState) : gmap nat TrackState :=
  foldl (fun m' t => <[t := ended]> m') m l.

(** The world once [stopCurrentStream] has run. *)
Definition released (w : World) : World :=
  match streamRef (cam w) with
  | Some s =>
      with_cam (put_streamRef None)
        (with_browser (fun b => put_tracks (ended_all (stream_tracks s) (tracks b)) b) w)
  | None => w
  end.

(** The video element [videoRef.current] holds when the call resumes. *)
Definition video_at_resume (rerender : bool) (w : World) : option HTMLVideoElement :=
  videoRef (cam (snd (await rerender w))).

Definition put_storage_writable (x : bool) (b : Browser) : Browser :=
  {| localStorage := localStorage b; storage_readable := storage_readable b;
     storage_writable := x; tracks := tracks b;
     next_track := next_track b; streams := streams b; console := console b;
     calls := calls b; permission_listener := permission_listener b |}.

Definition is_setItem (c : PlatformCall) : bool :=
  match c with call_setItem _ _ => true | _ => false end.

(** The platform calls made between two worlds of one run. *)
Definition calls_since (before after : World) : list PlatformCall :=
  drop (length (calls (browser before))) (calls (browser after)).

Definition NotAllowedError : JsError := {| err_name := "NotAllowedError" |}.

(** A platform on which the camera permission is [denied]: a query says so and
    an acquisition is refused for lack of consent. *)
Definition platform_denied (p : Platform) : Prop :=
  acquisition p = Rejected NotAllowedError /\
  match permissions p with
  | Some (inr st) => st = denied
  | _ => True
  end.

(** Ownership of streams: whatever is live is the stream [streamRef] holds. *)
Record stream_inv (w : World) : Prop := {
  inv_owned : forall s, s ∈ streams (browser w) -> stream_live (browser w) s = true ->
                        streamRef (cam w) = Some s;
  inv_ids : forall i s, streams (browser w) !! i = Some s -> stream_id s = i;
  inv_fresh : forall t, next_track (browser w) <= t -> tracks (browser w) !! t = None;
  inv_known : forall s t, s ∈ streams (browser w) -> t ∈ stream_tracks s ->
                          is_Some (tracks (browser w) !! t);
  inv_current : forall s, streamRef (cam w) = Some s -> s ∈ streams (browser w)
}.

(** The part of the world that stream ownership is about. *)
Definition media (w : World)
  : option MediaStream * gmap nat TrackState * nat * list MediaStream :=
  (streamRef (cam w), tracks (browser w), next_track (browser w), streams (browser w)).

(** [N] calls in a row, as the caller sees them. *)
Definition requests (os : list (bool * Settled)) (w : World) : World :=
  foldl (fun w' ro => snd (requestCameraPermission (fst ro) (snd ro) w')) w os.

Definition NotReadableError : JsError := {| err_name := "NotReadableError" |}.

(** ** Closed forms of the straight-line operations

    Each is proved below to be the world the corresponding code leaves. *)

Definition begun (w : World) : World :=
  with_browser (fun b => put_calls (calls b ++ [call_getUserMedia]) b) (released w).

Definition awaited (rerender : bool) (w : World) : World :=
  if rerender then commit w else w.

Definition after_save (value : string) (w : World) : World :=
  with_browser (fun b =>
    let b' := put_calls (calls b ++ [call_setItem "cameraPermission" value]) b in
    if storage_writable b
    then put_localStorage (<["cameraPermission" := value]> (localStorage b)) b'
    else put_console (console b ++ [console_warn msg_not_saved]) b') w.

Definition failed (err : JsError) (w : World) : World :=
  let w1 := with_browser
              (fun b => put_console (console b ++ [console_error "Error accessing camera:"]) b) w in
  if decide (err_name err = "NotAllowedError")
  then after_save "denied"
         (with_cam (put_error msg_denied) (with_cam (put_permissionStatus denied) w1))
  else with_cam (put_error msg_generic) w1.

Definition succeeded (s : MediaStream) (w : World) : World :=
  let w1 := with_cam (put_streamRef (Some s)) w in
  match videoRef (cam w) with
  | Some _ =>
      after_save "granted"
        (with_cam (put_error "")
           (with_cam (put_permissionStatus granted)
              (with_cam (put_videoRef (Some {| srcObject := Some s |})) w1)))
  | None => w1
  end.

Definition resumed (rerender : bool) (o : Settled) (w : World) : World :=
  let w1 := awaited rerender w in
  match o with
  | Resolved n => succeeded (new_stream n (browser w1)) (with_browser (add_stream n) w1)
  | Rejected e => failed e w1
  end.

Definition after_getItem (w : World) : World :=
  with_browser (fun b => put_calls (calls b ++ [call_getItem "cameraPermission"]) b) w.

(** What can happen to a mounted component afterwards: the button of the
    prompt panel is clicked, React commits a render, or the platform reports a
    permission change. *)
Inductive Later :=
| clicked (rerender : bool) (o : Settled)
| rerendered
| changed (state : PermissionState) (rerender : bool) (o : Settled).

Definition later (w : World) (e : Later) : World :=
  match e with
  | clicked r o => snd (requestCameraPermission r o w)
  | rerendered => commit w
  | changed st r o => snd (permission_changed st r o w)
  end.

(** A page that reloads with the permission saved and still granted. *)
Definition granted_platform : Platform :=
  {| devices := inr [ {| kind := videoinput |} ];
     permissions := Some (inr granted);
     acquisition := Resolved 1;
     rerender := true |}.

Definition denied_platform : Platform :=
  {| devices := inr [ {| kind := videoinput |} ];
     permissions := Some (inr denied);
     acquisition := Rejected NotAllowedError;
     rerender := true |}.

Definition saved_granted : gmap string string := {[ "cameraPermission" := "granted" ]}.

(** A device with a microphone and a speaker but no camera. *)
Definition no_camera_platform : Platform :=
  {| devices := inr [ {| kind := audioinput |}; {| kind := audiooutput |} ];
     permissions := Some (inr prompt);
     acquisition := Rejected {| err_name := "NotFoundError" |};
     rerender := true |}.

(** A video element that reports enough data has a picture to show. *)
Definition has_picture (video : Sampling.VideoState) : Prop :=
  Sampling.readyState video = Sampling.HAVE_ENOUGH_DATA ->
  0 < Sampling.videoWidth video /\ 0 < Sampling.videoHeight video.

(** The picture of the video as a row-major RGBA buffer. *)
Definition picture (video : Sampling.VideoState) : list nat :=
  flat_map (fun y => flat_map (fun x => Sampling.rgba (Sampling.frame video x y))
                              (seq 0 (Sampling.videoWidth video)))
           (seq 0 (Sampling.videoHeight video)).

(** A component that shows the video: camera available, permission granted,
    both elements mounted. *)
Definition showing_video : Camera :=
  {| videoRef := Some blank_video; canvasRef := Some blank_canvas; streamRef := None;
     error := ""; isCameraAvailable := true; permissionStatus := granted |}.

(** A playing camera picture of 2 by 2 pixels. *)
Definition small_video : Sampling.VideoState :=
  {| Sampling.readyState := 4; Sampling.videoWidth := 2; Sampling.videoHeight := 2;
     Sampling.frame := fun x y => (x, y, 7, 255) |}.

(** The same video before it has data for a frame (HAVE_METADATA). *)
Definition loading_video : Sampling.VideoState :=
  {| Sampling.readyState := 1; Sampling.videoWidth := 2; Sampling.videoHeight := 2;
     Sampling.frame := fun x y => (x, y, 7, 255) |}.

(** One loop, started by one 'play': a single callback is pending and
    [animationFrame] names it. *)
Definition single_loop (s : Sampling.Sampler) : Prop :=
  exists h, Sampling.callbacks s = [h] /\ Sampling.animationFrame s = Some h.

Definition mounted_sampler : Sampling.Sampler :=
  {| Sampling.canvas := blank_canvas; Sampling.animationFrame := None;
     Sampling.play_listener := true; Sampling.callbacks := [];
     Sampling.next_handle := 1; Sampling.delivered := [] |}.

(** ** Closed forms of the mount effect *)

(** The world once [enumerateDevices] has answered. *)
Definition enumerated (p : Platform) (w : World) : World :=
  awaited (rerender p)
    (with_browser (fun b => put_calls (calls b ++ [call_enumerateDevices]) b)
       (after_getItem w)).

(** The world once [permissions.query] has answered. *)
Definition queried (p : Platform) (w : World) : World :=
  awaited (rerender p)
    (with_browser (fun b => put_calls (calls b ++ [call_permissions_query]) b) w).

(** The world the [catch] block of the mount effect leaves. *)
Definition check_failed (w : World) : World :=
  with_cam (put_error msg_check_failed)
    (with_browser (fun b => put_console (console b ++ [console_error "Error checking camera:"]) b) w).

(** The world in which the permission listener has just been registered. *)
Definition listening (p : Platform) (st : PermissionState) (w : World) : World :=
  with_browser (put_permission_listener true)
    (with_cam (put_permissionStatus st)
       (queried p (with_cam (put_isCameraAvailable true) (enumerated p w)))).

Definition has_camera (p : Platform) : bool :=
  match devices p with
  | inr ds => existsb is_videoinput ds
  | inl _ => false
  end.

(** The ways the mount effect ends in its [catch] block. *)
Definition check_fails (p : Platform) (w : World) : Prop :=
  storage_readable (browser w) = false \/
  (storage_readable (browser w) = true /\
   localStorage (browser w) !! "cameraPermission" <> Some "granted" /\
   ((exists e, devices p = inl e) \/
    (has_camera p = true /\ exists e, permissions p = Some (inl e)))).

Definition is_getUserMedia (c : PlatformCall) : bool :=
  match c with call_getUserMedia => true | _ => false end.

(** The stream the first successful acquisition after a page load hands out. *)
Definition first_stream (n : nat) : MediaStream :=
  {| stream_id := 0; stream_tracks := seq 0 n |}.

(** ** The first revision of the component (lines 1-129)

    It has no [streamRef] and no permission state: the stream lives only in
    [videoRef.current.srcObject].  The fields [streamRef] and
    [permissionStatus] of the world are not touched by anything below. *)

Module FirstRevision.

Definition msg_no_camera : string :=
  "No se detectó ninguna cámara. Por favor, conecta una cámara o usa un dispositivo móvil.".
Definition msg_not_found : string :=
  "No se encontró ninguna cámara disponible. Por favor, verifica que tu cámara esté conectada y no esté siendo usada por otra aplicación.".
Definition msg_not_allowed : string :=
  "Necesitamos permiso para usar la cámara. Por favor, permite el acceso en la configuración de tu navegador.".
Definition msg_other : string :=
  "Error al acceder a la cámara. Por favor, recarga la página o intenta en otro navegador.".

(** Lines 88-128: the error panel (with a hint when no camera is available)
    replaces the video as soon as [error] is not empty. *)
Inductive View := ErrorPanel (hint : bool) | VideoView.

Definition render (c : Camera) : View :=
  if decide (error c = "") then VideoView
  else ErrorPanel (negb (isCameraAvailable c)).

Definition attach_refs (c : Camera) : Camera :=
  match render c with
  | VideoView =>
      put_canvasRef (Some (default blank_canvas (canvasRef c)))
        (put_videoRef (Some (default blank_video (videoRef c))) c)
  | ErrorPanel _ => put_canvasRef None (put_videoRef None c)
  end.

Definition commit (w : World) : World := with_cam attach_refs w.

Definition await (rerender : bool) : M World unit :=
  if rerender then modify commit else ret tt.

(** The [catch] block, lines 36-45. *)
Definition check_failed (err : JsError) : M World unit :=
  console_log (console_error "Error accessing camera:") ;;
  if decide (err_name err = "NotFoundError") then setError msg_not_found
  else if decide (err_name err = "NotAllowedError") then setError msg_not_allowed
  else setError msg_other.

(** Lines 14-46. *)
Definition checkCameraAvailability (p : Platform) : M World unit :=
  try_catch
    (log_call call_enumerateDevices ;;
     await (rerender p) ;;
     do devs <- (match devices p with inr ds => ret ds | inl e => throw e end) ;
     let hasCamera := existsb is_videoinput devs in
     setIsCameraAvailable hasCamera ;;
     if negb hasCamera then
       setError msg_no_camera
     else
       getUserMedia_request ;;
       await (rerender p) ;;
       do stream <- getUserMedia_settle (acquisition p) ;
       do video <- gets (fun w => videoRef (cam w)) ;
       match video with
       | Some _ => attach_stream stream
       | None => ret tt
       end)
    check_failed.

(** Lines 50-55: the cleanup of the mount effect. *)
Definition cleanup : M World unit :=
  do video <- gets (fun w => videoRef (cam w)) ;
  match video with
  | Some {| srcObject := Some s |} => forEach (stream_tracks s) track_stop
  | _ => ret tt
  end.

Definition mount (p : Platform) (storage : gmap string string) (readable writable : bool)
  : (JsError + unit) * World :=
  checkCameraAvailability p (commit (page_load storage readable writable)).

(** The guard of the sampling effect, line 59. *)
Definition sampling_guard (c : Camera) : bool :=
  bool_decide (is_Some (videoRef c)) && bool_decide (is_Some (canvasRef c))
  && isCameraAvailable c.

End FirstRevision.

(** How a platform makes the first revision fail, if it does. *)
Definition first_failure (p : Platform) : option JsError :=
  match devices p with
  | inl e => Some e
  | inr ds =>
      if existsb is_videoinput ds then
        match acquisition p with
        | Rejected e => Some e
        | Resolved _ => None
        end
      else None
  end.

Definition is_storage_call (c : PlatformCall) : bool :=
  match c with call_getItem _ | call_setItem _ _ => true | _ => false end.

(** Closed forms for the first revision. *)
Definition first_awaited (rerender : bool) (w : World) : World :=
  if rerender then FirstRevision.commit w else w.

Definition first_message (e : JsError) : string :=
  if decide (err_name e = "NotFoundError") then FirstRevision.msg_not_found
  else if decide (err_name e = "NotAllowedError") then FirstRevision.msg_not_allowed
  else FirstRevision.msg_other.

Definition first_failed (e : JsError) (w : World) : World :=
  with_cam (put_error (first_message e))
    (with_browser
       (fun b => put_console (console b ++ [console_error "Error accessing camera:"]) b) w).

Definition first_enumerated (p : Platform) (w : World) : World :=
  first_awaited (rerender p)
    (with_browser (fun b => put_calls (calls b ++ [call_enumerateDevices]) b) w).

Definition first_requested (p : Platform) (w : World) : World :=
  first_awaited (rerender p)
    (with_browser (fun b => put_calls (calls b ++ [call_getUserMedia]) b)
       (with_cam (put_isCameraAvailable true) (first_enumerated p w))).

Definition first_attached (n : nat) (w : World) : World :=
  let s := new_stream n (browser w) in
  let w' := with_browser (add_stream n) w in
  match videoRef (cam w) with
  | Some _ => with_cam (put_videoRef (Some {| srcObject := Some s |})) w'
  | None => w'
  end.

(** ** The page (src/app/page.tsx) *)

(** A promise that has settled, awaited. *)
Definition settle {St A} (r : JsError + A) : M St A :=
  match r with
  | inr a => ret a
  | inl e => throw e
  end.

Module Home.

(** The loaded model; what it computes is outside the page. *)
Inductive MobileNet := loaded_model.

(** A JavaScript number, carried by its IEEE 754 bit pattern: the page only
    stores and shows it. *)
Record Number := { bits : N }.

Record Prediction := { className : string; probability : Number }.

Record Page := {
  model : option MobileNet;
  predictions : list Prediction;
  isLoading : bool;
  error : string;
  tensors : gset nat;          (* tensors created and not disposed *)
  next_tensor : nat;
  console : list LogEntry
}.

Definition setModel (m : option MobileNet) : M Page unit :=
  modify (fun h => {| model := m; predictions := predictions h; isLoading := isLoading h;
                      error := error h; tensors := tensors h; next_tensor := next_tensor h;
                      console := console h |}).

Definition setPredictions (l : list Prediction) : M Page unit :=
  modify (fun h => {| model := model h; predictions := l; isLoading := isLoading h;
                      error := error h; tensors := tensors h; next_tensor := next_tensor h;
                      console := console h |}).

Definition setIsLoading (b : bool) : M Page unit :=
  modify (fun h => {| model := model h; predictions := predictions h; isLoading := b;
                      error := error h; tensors := tensors h; next_tensor := next_tensor h;
                      console := console h |}).

Definition setError (e : string) : M Page unit :=
  modify (fun h => {| model := model h; predictions := predictions h; isLoading := isLoading h;
                      error := e; tensors := tensors h; next_tensor := next_tensor h;
                      console := console h |}).

Definition console_log (e : LogEntry) : M Page unit :=
  modify (fun h => {| model := model h; predictions := predictions h; isLoading := isLoading h;
                      error := error h; tensors := tensors h; next_tensor := next_tensor h;
                      console := console h ++ [e] |}).

Definition msg_model_failed : string :=
  "Error al cargar el modelo de IA. Por favor, recarga la página.".

(** Lines 20-31; [ready] and [loaded] are how [tf.ready()] and
    [mobilenet.load()] settle. *)
Definition loadModel (ready : JsError + unit) (loaded : JsError + MobileNet) : M Page unit :=
  try_catch
    (settle ready ;;
     do loadedModel <- settle loaded ;
     setModel (Some loadedModel) ;;
     setIsLoading false)
    (fun _ =>
       console_log (console_error "Error loading model:") ;;
       setError msg_model_failed ;;
       setIsLoading false).

(** [tf.browser.fromPixels(imageData)]: a new tensor, unless the call throws. *)
Definition fromPixels (imageData : Sampling.ImageData) (pixels : JsError + unit) : M Page nat :=
  settle pixels ;;
  do t <- gets next_tensor ;
  modify (fun h => {| model := model h; predictions := predictions h; isLoading := isLoading h;
                      error := error h; tensors := {[t]} ∪ tensors h; next_tensor := S t;
                      console := console h |}) ;;
  ret t.

(** [tensor.dispose()] *)
Definition dispose (t : nat) : M Page unit :=
  modify (fun h => {| model := model h; predictions := predictions h; isLoading := isLoading h;
                      error := error h; tensors := tensors h ∖ {[t]};
                      next_tensor := next_tensor h; console := console h |}).

(** Lines 36-54; [pixels] and [classified] are how [fromPixels] and
    [model.classify] end.  The callback is rebuilt whenever [model] changes
    ([useCallback]), so the model it tests is the one the page holds. *)
Definition processFrame (imageData : Sampling.ImageData)
    (pixels : JsError + unit) (classified : JsError + list Prediction) : M Page unit :=
  do m <- gets model ;
  match m with
  | None => ret tt
  | Some _ =>
      try_catch
        (do tensor <- fromPixels imageData pixels ;
         do found <- settle classified ;
         dispose tensor ;;
         setPredictions found)
        (fun _ => console_log (console_error "Error processing frame:"))
  end.

(** Lines 56-118. *)
Inductive View :=
| ErrorView (message : string)
| LoadingView
| MainView (rows : list Prediction).   (* the camera, and the list or its placeholder *)

Definition render (h : Page) : View :=
  if decide (error h = "") then
    if isLoading h then LoadingView else MainView (predictions h)
  else ErrorView (error h).

(** [useState(null)], [useState([])], [useState(true)], [useState('')]. *)
Definition initial : Page :=
  {| model := None; predictions := []; isLoading := true; error := "";
     tensors := ∅; next_tensor := 0; console := [] |}.

(** One frame handed to [processFrame], with what the library does with it. *)
Record Frame := {
  image : Sampling.ImageData;
  pixels : JsError + unit;
  classified : JsError + list Prediction
}.

Definition frames (fs : list Frame) (h : Page) : Page :=
  foldl (fun h' f => snd (processFrame (image f) (pixels f) (classified f) h')) h fs.

(** The classification of a frame, when it got one. *)
Definition found (f : Frame) : option (list Prediction) :=
  match pixels f, classified f with
  | inr _, inr l => Some l
  | _, _ => None
  end.

(** A frame whose tensor was created and whose classification failed. *)
Definition lost (f : Frame) : bool :=
  match pixels f, classified f with
  | inr _, inl _ => true
  | _, _ => false
  end.

(** Tensor handles are handed out in increasing order. *)
Definition tensors_fresh (h : Page) : Prop :=
  forall t, t ∈ tensors h -> t < next_tensor h.

End Home.

(** ** Sample platforms, worlds and pages *)

(** A device with a camera and a browser without [navigator.permissions]. *)
Definition plain_platform : Platform :=
  {| devices := inr [ {| kind := audioinput |}; {| kind := videoinput |} ];
     permissions := None;
     acquisition := Resolved 1;
     rerender := true |}.

(** A browser whose permission query does not know the name 'camera'. *)
Definition strict_platform : Platform :=
  {| devices := inr [ {| kind := videoinput |} ];
     permissions := Some (inl {| err_name := "TypeError" |});
     acquisition := Resolved 1;
     rerender := true |}.

Definition saved_denied : gmap string string := {[ "cameraPermission" := "denied" ]}.

(** The component on its prompt panel, and running with a granted camera. *)
Definition prompt_world : World := snd (mount plain_platform ∅ true true).
Definition running_world : World := snd (mount granted_platform ∅ true true).

(** The page once the model has loaded. *)
Definition loaded_page : Home.Page :=
  snd (Home.loadModel (inr tt) (inr Home.loaded_model) Home.initial).

Definition blank_image : Sampling.ImageData :=
  {| Sampling.width := 1; Sampling.height := 1; Sampling.data := [0; 0; 0; 255] |}.

Definition ladybird : list Home.Prediction :=
  [ {| Home.className := "ladybug"; Home.probability := {| Home.bits := 4606281698874543309 |} |} ].

Definition sample_frames : list Home.Frame :=
  [ {| Home.image := blank_image; Home.pixels := inr tt; Home.classified := inr ladybird |};
    {| Home.image := blank_image; Home.pixels := inr tt;
       Home.classified := inl {| err_name := "Error" |} |};
    {| Home.image := blank_image; Home.pixels := inl {| err_name := "Error" |};
       Home.classified := inr [] |} ].

(** The buffer a tick reads from a video. *)
Definition snapshot (video : Sampling.VideoState) : Sampling.ImageData :=
  {| Sampling.width := Sampling.videoWidth video;
     Sampling.height := Sampling.videoHeight video;
     Sampling.data := picture video |}.

(** What the callbacks of one animation frame hand to [onFrame], one buffer
    per callback. *)
Definition sampled (video : Sampling.VideoState) (loops : nat) : list Sampling.ImageData :=
  if decide (Sampling.readyState video = Sampling.HAVE_ENOUGH_DATA)
  then repeat (snapshot video) loops else [].

(** * Verification *)

Local Open Scope list_scope.

(** * Part I: the code runs to its closed forms *)

Lemma forEach_track_stop l w :
  forEach l track_stop w =
  (inr tt, with_browser (fun b => put_tracks (ended_all l (tracks b)) b) w).
Proof.
  revert w. induction l as [|t l IH]; intros w.
  - destruct w as [c b]; destruct b; reflexivity.
  - simpl. unfold bind at 1. unfold track_stop at 1, modify. rewrite IH.
    destruct w as [c b]; destruct b; reflexivity.
Qed.

Lemma stopCurrentStream_run w : stopCurrentStream w = (inr tt, released w).
Proof.
  unfold stopCurrentStream, released, bind, gets.
  destruct (streamRef (cam w)) as [s|]; [|reflexivity].
  rewrite forEach_track_stop. reflexivity.
Qed.

Lemma begin_run w : requestCameraPermission_begin w = (inr tt, begun w).
Proof.
  unfold requestCameraPermission_begin, bind. rewrite stopCurrentStream_run. reflexivity.
Qed.

Lemma await_run r w : await r w = (inr tt, awaited r w).
Proof. destruct r; reflexivity. Qed.

Lemma save_permission_run v w : save_permission v w = (inr tt, after_save v w).
Proof.
  unfold save_permission, try_catch, localStorage_setItem, bind, log_call, modify, gets.
  unfold after_save. destruct w as [c [ls rd wr tr nt st co ca pl]].
  destruct wr; reflexivity.
Qed.

Lemma request_failed_run e w : request_failed e w = (inr tt, failed e w).
Proof.
  unfold request_failed, failed, bind, console_log, modify.
  case_decide.
  - unfold setPermissionStatus, setError, bind, modify.
    rewrite save_permission_run. reflexivity.
  - reflexivity.
Qed.

Lemma request_succeeded_run s w : request_succeeded s w = (inr tt, succeeded s w).
Proof.
  unfold request_succeeded, succeeded, bind, modify, gets.
  destruct w as [[v c s0 e a p] b]. destruct v as [v|]; [|reflexivity].
  unfold attach_stream, setPermissionStatus, setError, modify.
  cbn [videoRef cam with_cam put_streamRef]. rewrite save_permission_run. reflexivity.
Qed.

Lemma resume_run r o w :
  requestCameraPermission_resume r o w = (inr tt, resumed r o w).
Proof.
  unfold requestCameraPermission_resume, resumed, try_catch, bind.
  rewrite await_run. destruct o as [n|e]; simpl.
  - unfold bind, gets, modify, ret. rewrite request_succeeded_run. reflexivity.
  - apply request_failed_run.
Qed.

Lemma request_split r o w :
  requestCameraPermission r o w =
  requestCameraPermission_resume r o (snd (requestCameraPermission_begin w)).
Proof.
  unfold requestCameraPermission, requestCameraPermission_resume, try_catch.
  rewrite begin_run. unfold bind at 1. rewrite stopCurrentStream_run.
  unfold bind at 1. unfold getUserMedia_request, log_call, modify. reflexivity.
Qed.

Lemma request_run r o w :
  requestCameraPermission r o w = (inr tt, resumed r o (begun w)).
Proof. rewrite request_split, begin_run. apply resume_run. Qed.

(** * Part II: facts about the closed forms *)

Lemma awaited_browser r w : browser (awaited r w) = browser w.
Proof. destruct r; reflexivity. Qed.

Lemma awaited_state r w :
  streamRef (cam (awaited r w)) = streamRef (cam w) /\
  error (cam (awaited r w)) = error (cam w) /\
  isCameraAvailable (cam (awaited r w)) = isCameraAvailable (cam w) /\
  permissionStatus (cam (awaited r w)) = permissionStatus (cam w).
Proof.
  destruct r; [|auto]. unfold awaited, commit, attach_refs. cbn [cam with_cam].
  destruct (render (cam w)); auto.
Qed.

Lemma released_browser w :
  browser (released w) =
  put_tracks (match streamRef (cam w) with
              | Some s => ended_all (stream_tracks s) (tracks (browser w))
              | None => tracks (browser w)
              end) (browser w).
Proof.
  unfold released. destruct w as [c b]. simpl. destruct (streamRef c); [reflexivity|].
  destruct b; reflexivity.
Qed.

Lemma released_cam w : cam (released w) = put_streamRef None (cam w).
Proof.
  unfold released. destruct w as [[v c s e a p] b]. simpl. destruct s; reflexivity.
Qed.

Lemma begun_cam w : cam (begun w) = put_streamRef None (cam w).
Proof. unfold begun. simpl. apply released_cam. Qed.

Lemma begun_browser w :
  browser (begun w) =
  put_calls (calls (browser w) ++ [call_getUserMedia]) (browser (released w)).
Proof. unfold begun. simpl. rewrite released_browser. reflexivity. Qed.

Lemma after_save_cam v w : cam (after_save v w) = cam w.
Proof. reflexivity. Qed.

Lemma calls_since_app (w w' : World) (l : list PlatformCall) :
  calls (browser w') = (calls (browser w) ++ l)%list -> calls_since w w' = l.
Proof. unfold calls_since. intros ->. apply drop_app_length. Qed.

(** C3.  [requestCameraPermission] never throws: however the acquisition
    settles, whether React re-rendered meanwhile and whether the storage
    accepts writes, the call returns normally.  A rejection named
    NotAllowedError sets the permission status to [denied], sets the denial
    message and calls [setItem('cameraPermission', 'denied')], which lands in
    the storage when the storage is writable; any other rejection sets the
    generic message; a resolved promise leaves the new stream in [streamRef]. *)
Theorem requestCameraPermission_never_throws (rerender : bool) (o : Settled) (w : World) :
  exists w', requestCameraPermission rerender o w = (inr tt, w') /\
    match o with
    | Rejected e =>
        if decide (err_name e = "NotAllowedError") then
          permissionStatus (cam w') = denied /\
          error (cam w') = msg_denied /\
          calls_since w w' = [call_getUserMedia; call_setItem "cameraPermission" "denied"] /\
          (storage_writable (browser w) = true ->
           localStorage (browser w') !! "cameraPermission" = Some "denied")
        else error (cam w') = msg_generic
    | Resolved n => streamRef (cam w') = Some (new_stream n (browser w))
    end.
Proof.
  exists (resumed rerender o (begun w)). split; [apply request_run|].
  destruct o as [n|e]; unfold resumed.
  - unfold succeeded. rewrite awaited_browser, begun_browser, released_browser.
    destruct (videoRef _); reflexivity.
  - unfold failed. case_decide; [|reflexivity].
    rewrite after_save_cam. split; [reflexivity|]. split; [reflexivity|]. split.
    + apply calls_since_app. unfold after_save. simpl.
      rewrite awaited_browser, begun_browser, released_browser. simpl.
      destruct (storage_writable (browser w)); simpl; rewrite <- app_assoc; reflexivity.
    + intros Hw. unfold after_save. simpl.
      rewrite awaited_browser, begun_browser, released_browser. simpl. rewrite Hw. simpl.
      apply lookup_insert_eq.
Qed.

Lemma begun_writable x w :
  begun (with_browser (put_storage_writable x) w) =
  with_browser (put_storage_writable x) (begun w).
Proof.
  unfold begun, released. destruct w as [[v c s e a p] b]. simpl.
  destruct s; reflexivity.
Qed.

Lemma awaited_writable r x w :
  awaited r (with_browser (put_storage_writable x) w) =
  with_browser (put_storage_writable x) (awaited r w).
Proof.
  destruct r; reflexivity.
Qed.

Lemma begun_storage w :
  storage_writable (browser (begun w)) = storage_writable (browser w) /\
  localStorage (browser (begun w)) = localStorage (browser w).
Proof. rewrite begun_browser, released_browser. split; reflexivity. Qed.

(** The step after the await, with the write refused and with it accepted;
    [w0] is where the call started, [l] the calls made since. *)
Lemma unwritable_step (o : Settled) (w0 w : World) (l : list PlatformCall) :
  storage_writable (browser w) = false ->
  calls (browser w) = (calls (browser w0) ++ l)%list ->
  existsb is_setItem l = false ->
  let run := match o with
             | Resolved n => succeeded (new_stream n (browser w)) (with_browser (add_stream n) w)
             | Rejected e => failed e w
             end in
  let w2 := with_browser (put_storage_writable true) w in
  let ideal := match o with
               | Resolved n => succeeded (new_stream n (browser w2)) (with_browser (add_stream n) w2)
               | Rejected e => failed e w2
               end in
  cam run = cam ideal /\
  tracks (browser run) = tracks (browser ideal) /\
  streams (browser run) = streams (browser ideal) /\
  calls (browser run) = calls (browser ideal) /\
  localStorage (browser run) = localStorage (browser w) /\
  console (browser run) =
    (console (browser ideal) ++
     if existsb is_setItem (calls_since w0 run) then [console_warn msg_not_saved] else [])%list.
Proof.
  destruct w as [[v c s e a p] [ls rd wr tr nt st co ca pl]]. simpl. intros -> -> Hl.
  unfold calls_since.
  destruct o as [n|err]; simpl.
  - unfold succeeded. simpl. destruct v; simpl.
    + rewrite <- app_assoc, drop_app_length, existsb_app, Hl. repeat split; reflexivity.
    + rewrite drop_app_length, Hl, app_nil_r. repeat split; reflexivity.
  - unfold failed. case_decide; simpl.
    + rewrite <- app_assoc, drop_app_length, existsb_app, Hl. repeat split; reflexivity.
    + rewrite drop_app_length, Hl, app_nil_r. repeat split; reflexivity.
Qed.

(** C8.  A rejection whose name is not NotAllowedError leaves the permission
    status (and the availability) as they were: only the generic message is
    set, the stored preference is unchanged and the only platform call made is
    the acquisition itself, so no [setItem]. *)
Theorem other_failure_sets_only_the_message (rerender : bool) (e : JsError) (w : World) :
  err_name e <> "NotAllowedError" ->
  let w' := snd (requestCameraPermission rerender (Rejected e) w) in
  permissionStatus (cam w') = permissionStatus (cam w) /\
  error (cam w') = msg_generic /\
  isCameraAvailable (cam w') = isCameraAvailable (cam w) /\
  localStorage (browser w') = localStorage (browser w) /\
  calls_since w w' = [call_getUserMedia].
Proof.
  intros Hne. rewrite request_run. cbn [snd]. unfold resumed, failed.
  case_decide; [contradiction|].
  destruct (awaited_state rerender (begun w)) as (_ & _ & Ha & Hp).
  cbn [cam with_cam with_browser browser put_error permissionStatus error isCameraAvailable].
  rewrite Ha, Hp, begun_cam.
  repeat split.
  - cbn. rewrite awaited_browser. apply begun_storage.
  - apply calls_since_app. cbn. rewrite awaited_browser, begun_browser, released_browser.
    reflexivity.
Qed.

Lemma other_failure_witness :
  err_name NotReadableError <> "NotAllowedError" /\
  let w' := snd (requestCameraPermission false (Rejected NotReadableError)
                   (page_load saved_granted true true)) in
  permissionStatus (cam w') = prompt /\
  error (cam w') = msg_generic /\
  localStorage (browser w') = saved_granted /\
  calls_since (page_load saved_granted true true) w' = [call_getUserMedia].
Proof.
  assert (Hne : err_name NotReadableError <> "NotAllowedError") by discriminate.
  split; [exact Hne|].
  destruct (other_failure_sets_only_the_message false NotReadableError
              (page_load saved_granted true true) Hne) as (H1 & H2 & _ & H4 & H5).
  repeat split; assumption.
Defined.

Lemma awaited_begun_videoRef r w :
  videoRef (cam (awaited r (begun w))) = videoRef (cam (awaited r w)).
Proof.
  destruct r; unfold awaited; cbn [commit cam with_cam]; rewrite begun_cam;
    [|reflexivity].
  destruct w as [[v c s e a p] b]. unfold attach_refs, render. cbn.
  destruct a; [destruct p|]; reflexivity.
Qed.

(** The step after the await on a storage that refuses writes: which write
    is attempted, and what the inner [catch] leaves.  [w0] is where the call
    started. *)
Lemma refused_write_step (o : Settled) (w0 w : World) :
  storage_writable (browser w) = false ->
  calls (browser w) = (calls (browser w0) ++ [call_getUserMedia])%list ->
  let run := match o with
             | Resolved n => succeeded (new_stream n (browser w)) (with_browser (add_stream n) w)
             | Rejected e => failed e w
             end in
  let w2 := with_browser (put_storage_writable true) w in
  let ideal := match o with
               | Resolved n => succeeded (new_stream n (browser w2)) (with_browser (add_stream n) w2)
               | Rejected e => failed e w2
               end in
  match o with
  | Rejected e =>
      if decide (err_name e = "NotAllowedError") then
        calls_since w0 run = [call_getUserMedia; call_setItem "cameraPermission" "denied"] /\
        console (browser run) =
          (console (browser w) ++
           [console_error "Error accessing camera:"; console_warn msg_not_saved])%list /\
        console (browser ideal) =
          (console (browser w) ++ [console_error "Error accessing camera:"])%list /\
        localStorage (browser ideal) = <["cameraPermission" := "denied"]> (localStorage (browser w)) /\
        permissionStatus (cam run) = denied /\
        error (cam run) = msg_denied
      else
        calls_since w0 run = [call_getUserMedia] /\
        console (browser run) = console (browser ideal)
  | Resolved n =>
      streamRef (cam run) = Some (new_stream n (browser w)) /\
      match videoRef (cam w) with
      | Some _ =>
          calls_since w0 run = [call_getUserMedia; call_setItem "cameraPermission" "granted"] /\
          console (browser run) = (console (browser w) ++ [console_warn msg_not_saved])%list /\
          console (browser ideal) = console (browser w) /\
          localStorage (browser ideal) = <["cameraPermission" := "granted"]> (localStorage (browser w)) /\
          permissionStatus (cam run) = granted /\
          error (cam run) = ""
      | None =>
          calls_since w0 run = [call_getUserMedia] /\
          console (browser run) = console (browser ideal)
      end
  end.
Proof.
  destruct w as [[v c s e a p] [ls rd wr tr nt st co ca pl]]. simpl. intros -> ->.
  unfold calls_since.
  destruct o as [n|err]; simpl.
  - unfold succeeded. simpl. destruct v; simpl.
    + rewrite <- app_assoc, drop_app_length. repeat split; reflexivity.
    + rewrite drop_app_length. repeat split; reflexivity.
  - unfold failed. case_decide; simpl.
    + rewrite <- !app_assoc, drop_app_length. repeat split; reflexivity.
    + rewrite drop_app_length. repeat split; reflexivity.
Qed.

(** C9.  A refused write of the preference is logged and nothing else.  On a
    storage that refuses writes the call still returns normally; the
    component (refs, error, availability, permission status), the tracks, the
    streams and the platform calls are those of the same call on a writable
    storage, and the stored preference is untouched.  The write is attempted
    in exactly two cases.  After a NotAllowedError rejection,
    [setItem('cameraPermission', 'denied')] is called, the status is still
    set to [denied] with the denial message, and the console has the warning
    after the error entry.  After an acquisition that resumes with a video
    element, [setItem('cameraPermission', 'granted')] is called, the stream
    is stored, the status is [granted], the error is cleared, and the warning
    is the only new console entry.  On a writable storage the same call makes
    no warning and stores the value.  In the other cases no [setItem] is
    made and the console is that of the writable run. *)
Theorem failed_write_is_only_logged (rerender : bool) (o : Settled) (w : World) :
  storage_writable (browser w) = false ->
  let run := requestCameraPermission rerender o w in
  let ideal := requestCameraPermission rerender o
                 (with_browser (put_storage_writable true) w) in
  fst run = inr tt /\
  cam (snd run) = cam (snd ideal) /\
  tracks (browser (snd run)) = tracks (browser (snd ideal)) /\
  streams (browser (snd run)) = streams (browser (snd ideal)) /\
  calls (browser (snd run)) = calls (browser (snd ideal)) /\
  localStorage (browser (snd run)) = localStorage (browser w) /\
  match o with
  | Rejected e =>
      if decide (err_name e = "NotAllowedError") then
        calls_since w (snd run) =
          [call_getUserMedia; call_setItem "cameraPermission" "denied"] /\
        console (browser (snd run)) =
          (console (browser w) ++
           [console_error "Error accessing camera:"; console_warn msg_not_saved])%list /\
        console (browser (snd ideal)) =
          (console (browser w) ++ [console_error "Error accessing camera:"])%list /\
        localStorage (browser (snd ideal)) =
          <["cameraPermission" := "denied"]> (localStorage (browser w)) /\
        permissionStatus (cam (snd run)) = denied /\
        error (cam (snd run)) = msg_denied
      else
        calls_since w (snd run) = [call_getUserMedia] /\
        console (browser (snd run)) = console (browser (snd ideal))
  | Resolved n =>
      streamRef (cam (snd run)) = Some (new_stream n (browser w)) /\
      match video_at_resume rerender w with
      | Some _ =>
          calls_since w (snd run) =
            [call_getUserMedia; call_setItem "cameraPermission" "granted"] /\
          console (browser (snd run)) =
            (console (browser w) ++ [console_warn msg_not_saved])%list /\
          console (browser (snd ideal)) = console (browser w) /\
          localStorage (browser (snd ideal)) =
            <["cameraPermission" := "granted"]> (localStorage (browser w)) /\
          permissionStatus (cam (snd run)) = granted /\
          error (cam (snd run)) = ""
      | None =>
          calls_since w (snd run) = [call_getUserMedia] /\
          console (browser (snd run)) = console (browser (snd ideal))
      end
  end.
Proof.
  intros Hw. rewrite !request_run. cbn [fst snd]. split; [reflexivity|].
  unfold resumed. rewrite begun_writable, awaited_writable.
  destruct (begun_storage w) as [Hbw Hbl].
  assert (Hwr : storage_writable (browser (awaited rerender (begun w))) = false)
    by (rewrite awaited_browser; congruence).
  assert (Hca : calls (browser (awaited rerender (begun w))) =
                (calls (browser w) ++ [call_getUserMedia])%list)
    by (rewrite awaited_browser, begun_browser, released_browser; reflexivity).
  assert (Hco : console (browser (awaited rerender (begun w))) = console (browser w))
    by (rewrite awaited_browser, begun_browser, released_browser; reflexivity).
  assert (Hn : forall n, new_stream n (browser (awaited rerender (begun w))) =
                         new_stream n (browser w))
    by (intros n; rewrite awaited_browser, begun_browser, released_browser; reflexivity).
  pose proof (unwritable_step o w (awaited rerender (begun w)) [call_getUserMedia]
                Hwr Hca eq_refl) as (H1 & H2 & H3 & H4 & H5 & _).
  pose proof (refused_write_step o w (awaited rerender (begun w)) Hwr Hca) as H.
  cbv zeta in H.
  rewrite <- Hbl, <- (awaited_browser rerender (begun w)).
  do 5 (split; [assumption|]).
  unfold video_at_resume. rewrite await_run. cbn [snd].
  rewrite <- (awaited_begun_videoRef rerender w).
  rewrite <- Hco.
  destruct o as [n|e]; [rewrite <- (Hn n)|]; exact H.
Qed.

Lemma failed_write_witness :
  (storage_writable (browser (page_load ∅ true false)) = false /\
   let run := requestCameraPermission true (Rejected NotAllowedError) (page_load ∅ true false) in
   let ideal := requestCameraPermission true (Rejected NotAllowedError) (page_load ∅ true true) in
   fst run = inr tt /\
   cam (snd run) = cam (snd ideal) /\
   localStorage (browser (snd run)) = ∅ /\
   calls (browser (snd run)) = [call_getUserMedia; call_setItem "cameraPermission" "denied"] /\
   console (browser (snd run)) =
     [console_error "Error accessing camera:"; console_warn msg_not_saved] /\
   console (browser (snd ideal)) = [console_error "Error accessing camera:"] /\
   localStorage (browser (snd ideal)) = {[ "cameraPermission" := "denied" ]} /\
   permissionStatus (cam (snd run)) = denied /\
   error (cam (snd run)) = msg_denied) /\
  (storage_writable (browser (with_browser (put_storage_writable false) running_world)) = false /\
   let w := with_browser (put_storage_writable false) running_world in
   let run := requestCameraPermission true (Resolved 1) w in
   fst run = inr tt /\
   calls_since w (snd run) = [call_getUserMedia; call_setItem "cameraPermission" "granted"] /\
   console (browser (snd run)) = [console_warn msg_not_saved] /\
   localStorage (browser (snd run)) = localStorage (browser running_world) /\
   permissionStatus (cam (snd run)) = granted /\
   error (cam (snd run)) = "").
Proof.
  split; (split; [reflexivity|]).
  - destruct (failed_write_is_only_logged true (Rejected NotAllowedError)
                (page_load ∅ true false) eq_refl)
      as (H1 & H2 & _ & _ & _ & H6 & H7 & H8 & H9 & H10 & H11 & H12).
    repeat split; assumption.
  - destruct (failed_write_is_only_logged true (Resolved 1)
                (with_browser (put_storage_writable false) running_world) eq_refl)
      as (H1 & _ & _ & _ & _ & H6 & _ & H8 & H9 & _ & _ & H12 & H13).
    repeat split; assumption.
Defined.

(** C10.  When the acquisition succeeds the new stream is always stored in
    [streamRef]; the rest depends on [videoRef.current] at that moment.  With
    a video element: it receives the stream, the permission status becomes
    [granted], the error is cleared and [setItem('cameraPermission',
    'granted')] is called.  Without one: permission status, error and stored
    preference are unchanged and no [setItem] is made. *)
Theorem success_applies_only_with_video (rerender : bool) (n : nat) (w : World) :
  let w' := snd (requestCameraPermission rerender (Resolved n) w) in
  streamRef (cam w') = Some (new_stream n (browser w)) /\
  new_stream n (browser w) ∈ streams (browser w') /\
  match video_at_resume rerender w with
  | Some _ =>
      permissionStatus (cam w') = granted /\
      error (cam w') = "" /\
      (videoRef (cam w') = Some {| srcObject := Some (new_stream n (browser w)) |}) /\
      calls_since w w' = [call_getUserMedia; call_setItem "cameraPermission" "granted"] /\
      (storage_writable (browser w) = true ->
       localStorage (browser w') !! "cameraPermission" = Some "granted")
  | None =>
      permissionStatus (cam w') = permissionStatus (cam w) /\
      error (cam w') = error (cam w) /\
      localStorage (browser w') = localStorage (browser w) /\
      calls_since w w' = [call_getUserMedia]
  end.
Proof.
  rewrite request_run. cbn [snd]. unfold resumed, succeeded, video_at_resume.
  rewrite await_run. cbn [snd].
  cbn [cam with_cam with_browser browser].
  rewrite <- (awaited_begun_videoRef rerender w).
  destruct (awaited_state rerender (begun w)) as (_ & He & _ & Hp).
  assert (Hb : browser (awaited rerender (begun w)) =
               put_calls (calls (browser w) ++ [call_getUserMedia]) (browser (released w)))
    by (rewrite awaited_browser; apply begun_browser).
  assert (Hn : new_stream n (browser (awaited rerender (begun w))) = new_stream n (browser w))
    by (rewrite Hb, released_browser; reflexivity).
  rewrite Hn.
  destruct (videoRef (cam (awaited rerender (begun w)))) as [v|].
  - split; [reflexivity|]. split.
    { cbn. rewrite Hb, released_browser. destruct (storage_writable _); cbn;
        apply elem_of_app; right; rewrite <- Hn, Hb, released_browser; apply list_elem_of_here. }
    split; [reflexivity|]. split; [reflexivity|]. split; [reflexivity|]. split.
    + apply calls_since_app. cbn. rewrite Hb, released_browser. cbn.
      destruct (storage_writable (browser w)); cbn; rewrite <- app_assoc; reflexivity.
    + intros Hw. cbn. rewrite Hb, released_browser. cbn. rewrite Hw. cbn.
      apply lookup_insert_eq.
  - split; [reflexivity|]. split.
    { cbn. rewrite Hb, released_browser. cbn.
      apply elem_of_app; right; rewrite <- Hn, Hb, released_browser; apply list_elem_of_here. }
    cbn [cam with_cam with_browser put_streamRef permissionStatus error].
    rewrite He, Hp, begun_cam.
    split; [reflexivity|]. split; [reflexivity|]. split.
    + cbn. rewrite Hb, released_browser. reflexivity.
    + apply calls_since_app. cbn. rewrite Hb, released_browser. reflexivity.
Qed.

(** * Part III: the mount effect *)

Lemma getItem_run w :
  storage_readable (browser w) = true ->
  localStorage_getItem "cameraPermission" w =
  (inr (localStorage (browser w) !! "cameraPermission"), after_getItem w).
Proof.
  intros Hr. unfold localStorage_getItem, bind, log_call, modify, gets.
  cbn [browser with_browser put_calls storage_readable]. rewrite Hr. reflexivity.
Qed.

Lemma check_saved_granted p w :
  storage_readable (browser w) = true ->
  localStorage (browser w) !! "cameraPermission" = Some "granted" ->
  checkCameraAvailability p w =
  (inr tt, resumed (rerender p) (acquisition p) (begun (after_getItem w))).
Proof.
  intros Hr Hs. unfold checkCameraAvailability, try_catch. unfold bind at 1.
  rewrite getItem_run by assumption. rewrite Hs.
  case_decide; [|congruence]. rewrite request_run. reflexivity.
Qed.

Lemma check_no_camera p w ds :
  storage_readable (browser w) = true ->
  localStorage (browser w) !! "cameraPermission" <> Some "granted" ->
  devices p = inr ds ->
  existsb is_videoinput ds = false ->
  checkCameraAvailability p w =
  (inr tt,
   with_cam (put_error msg_no_camera)
     (with_cam (put_isCameraAvailable false)
        (awaited (rerender p)
           (with_browser (fun b => put_calls (calls b ++ [call_enumerateDevices]) b)
              (after_getItem w))))).
Proof.
  intros Hr Hs Hd Hn. unfold checkCameraAvailability, try_catch. unfold bind at 1.
  rewrite getItem_run by assumption.
  case_decide; [contradiction|].
  unfold bind at 1. unfold enumerateDevices. unfold bind at 1 2.
  unfold log_call at 1. unfold modify at 1. rewrite await_run. rewrite Hd.
  unfold ret at 1. rewrite Hn. reflexivity.
Qed.

Lemma mount_start storage readable writable :
  commit (page_load storage readable writable) = page_load storage readable writable.
Proof. reflexivity. Qed.

(** C6.  Mount without a saved grant, on a platform whose device list has no
    video input: the mount effect returns normally with the permission status
    still [prompt], the no-camera message set and availability false; the only
    platform calls are the read of the preference and the enumeration, so no
    acquisition and no permission query; no listener is registered. *)
Theorem no_video_input_stops_at_mount
    (p : Platform) (storage : gmap string string) (writable : bool)
    (ds : list MediaDeviceInfo) :
  storage !! "cameraPermission" <> Some "granted" ->
  devices p = inr ds ->
  existsb is_videoinput ds = false ->
  let r := mount p storage true writable in
  fst r = inr tt /\
  permissionStatus (cam (snd r)) = prompt /\
  error (cam (snd r)) = msg_no_camera /\
  isCameraAvailable (cam (snd r)) = false /\
  streamRef (cam (snd r)) = None /\
  calls (browser (snd r)) = [call_getItem "cameraPermission"; call_enumerateDevices] /\
  permission_listener (browser (snd r)) = false /\
  localStorage (browser (snd r)) = storage.
Proof.
  intros Hs Hd Hn. unfold mount. rewrite mount_start.
  rewrite (check_no_camera p _ ds) by (assumption || reflexivity). cbn [fst snd].
  destruct (rerender p); repeat split; reflexivity.
Qed.

Lemma no_video_input_witness :
  (∅ : gmap string string) !! "cameraPermission" <> Some "granted" /\
  existsb is_videoinput [ {| kind := audioinput |}; {| kind := audiooutput |} ] = false /\
  let r := mount no_camera_platform ∅ true true in
  fst r = inr tt /\
  permissionStatus (cam (snd r)) = prompt /\
  error (cam (snd r)) = msg_no_camera /\
  isCameraAvailable (cam (snd r)) = false /\
  streamRef (cam (snd r)) = None /\
  calls (browser (snd r)) = [call_getItem "cameraPermission"; call_enumerateDevices] /\
  permission_listener (browser (snd r)) = false /\
  localStorage (browser (snd r)) = ∅.
Proof.
  assert (Hs : (∅ : gmap string string) !! "cameraPermission" <> Some "granted")
    by (intros H; vm_compute in H; discriminate H).
  split; [exact Hs|]. split; [reflexivity|].
  exact (no_video_input_stops_at_mount no_camera_platform ∅ true
           [ {| kind := audioinput |}; {| kind := audiooutput |} ] Hs eq_refl eq_refl).
Defined.

(** C4.  Mount with a saved grant on a platform that denies the camera: the
    saved value sends the component straight into an acquisition, the
    acquisition is refused, and the final permission status is [denied]; no
    stream is held, and the stored preference becomes [denied] when the
    storage is writable. *)
Theorem live_denial_beats_saved_grant
    (p : Platform) (storage : gmap string string) (writable : bool) :
  storage !! "cameraPermission" = Some "granted" ->
  platform_denied p ->
  let r := mount p storage true writable in
  fst r = inr tt /\
  permissionStatus (cam (snd r)) = denied /\
  error (cam (snd r)) = msg_denied /\
  streamRef (cam (snd r)) = None /\
  streams (browser (snd r)) = [] /\
  (writable = true -> localStorage (browser (snd r)) !! "cameraPermission" = Some "denied").
Proof.
  intros Hs [Ha _]. unfold mount. rewrite mount_start.
  rewrite check_saved_granted by (assumption || reflexivity). rewrite Ha. cbn [fst snd].
  unfold resumed, failed, NotAllowedError. cbn [err_name].
  case_decide; [|congruence].
  destruct (rerender p), writable; repeat split; try reflexivity; try discriminate;
    intros _; apply lookup_insert_eq.
Qed.

Lemma live_denial_witness :
  saved_granted !! "cameraPermission" = Some "granted" /\
  platform_denied denied_platform /\
  let r := mount denied_platform saved_granted true true in
  fst r = inr tt /\
  permissionStatus (cam (snd r)) = denied /\
  error (cam (snd r)) = msg_denied /\
  streamRef (cam (snd r)) = None /\
  streams (browser (snd r)) = [] /\
  (true = true -> localStorage (browser (snd r)) !! "cameraPermission" = Some "denied").
Proof.
  assert (Hp : platform_denied denied_platform) by (split; reflexivity).
  split; [reflexivity|]. split; [exact Hp|].
  exact (live_denial_beats_saved_grant denied_platform saved_granted true eq_refl Hp).
Defined.

Lemma resumed_keeps_availability r o w :
  isCameraAvailable (cam (resumed r o (begun w))) = isCameraAvailable (cam w).
Proof.
  unfold resumed.
  destruct (awaited_state r (begun w)) as (_ & _ & Ha & _).
  rewrite begun_cam in Ha. cbn [put_streamRef isCameraAvailable] in Ha.
  destruct o as [n|e].
  - unfold succeeded. cbn [cam with_browser with_cam]. destruct (videoRef _); cbn; exact Ha.
  - unfold failed. case_decide; cbn; exact Ha.
Qed.

Lemma request_keeps_availability r o w :
  isCameraAvailable (cam (snd (requestCameraPermission r o w))) = isCameraAvailable (cam w).
Proof. rewrite request_run. apply resumed_keeps_availability. Qed.

Lemma commit_keeps_availability w :
  isCameraAvailable (cam (commit w)) = isCameraAvailable (cam w).
Proof. unfold commit, attach_refs. cbn [cam with_cam]. destruct (render (cam w)); reflexivity. Qed.

Lemma later_keeps_availability w e :
  isCameraAvailable (cam (later w e)) = isCameraAvailable (cam w).
Proof.
  destruct e as [r o| |st r o]; cbn [later].
  - apply request_keeps_availability.
  - apply commit_keeps_availability.
  - unfold permission_changed, bind, gets. destruct (permission_listener (browser w)); [|reflexivity].
    unfold setPermissionStatus at 1. unfold modify at 1. case_decide; [|reflexivity].
    rewrite request_keeps_availability. reflexivity.
Qed.

Lemma guard_needs_availability c :
  isCameraAvailable c = false -> Sampling.beginSampling c = None.
Proof.
  intros H. unfold Sampling.beginSampling, sampling_guard. rewrite H.
  rewrite andb_false_r. reflexivity.
Qed.

(** After a mount that took the saved-permission branch nothing the
    component can do later sets availability: clicks, renders and permission
    changes all leave the no-camera panel up and the sampling guard closed. *)
Lemma saved_grant_leaves_unavailable
    (p : Platform) (storage : gmap string string) (writable : bool) (es : list Later) :
  storage !! "cameraPermission" = Some "granted" ->
  let w := foldl later (snd (mount p storage true writable)) es in
  isCameraAvailable (cam w) = false /\
  render (cam w) = NoCameraPanel /\
  Sampling.beginSampling (cam w) = None.
Proof.
  intros Hs w.
  assert (Ha : isCameraAvailable (cam w) = false).
  { subst w. induction es as [|e es IH] using rev_ind.
    - unfold mount. rewrite mount_start.
      rewrite check_saved_granted by (assumption || reflexivity). cbn [snd foldl].
      rewrite resumed_keeps_availability. reflexivity.
    - rewrite foldl_app. cbn [foldl]. rewrite later_keeps_availability. exact IH. }
  split; [exact Ha|]. split.
  - unfold render. rewrite Ha. reflexivity.
  - apply guard_needs_availability, Ha.
Qed.

Lemma saved_grant_unavailable_witness :
  saved_granted !! "cameraPermission" = Some "granted" /\
  let w := foldl later (snd (mount granted_platform saved_granted true true))
                 [rerendered; clicked true (Resolved 1); changed granted true (Resolved 1)] in
  isCameraAvailable (cam w) = false /\
  render (cam w) = NoCameraPanel /\
  Sampling.beginSampling (cam w) = None.
Proof.
  split; [reflexivity|].
  exact (saved_grant_leaves_unavailable granted_platform saved_granted true
           [rerendered; clicked true (Resolved 1); changed granted true (Resolved 1)] eq_refl).
Defined.

(** C5 (fails on the code).  Reload with the grant saved, on a platform that
    still grants: the acquisition succeeds and its stream is live, but the
    early return after the saved-permission branch skips
    [setIsCameraAvailable], so availability stays false, the no-camera panel
    is rendered, the permission status is still [prompt], and the guard of the
    sampling effect refuses to start, also after a further render. *)
Theorem saved_grant_reload_never_samples :
  let r := mount granted_platform saved_granted true true in
  fst r = inr tt /\
  live_streams (snd r) = [ {| stream_id := 0; stream_tracks := [0] |} ] /\
  streamRef (cam (snd r)) = Some {| stream_id := 0; stream_tracks := [0] |} /\
  isCameraAvailable (cam (snd r)) = false /\
  permissionStatus (cam (snd r)) = prompt /\
  render (cam (snd r)) = NoCameraPanel /\
  Sampling.beginSampling (cam (snd r)) = None /\
  Sampling.beginSampling (cam (commit (snd r))) = None.
Proof. vm_compute. repeat split; reflexivity. Qed.

(** * Part IV: ownership of streams *)

Lemma ended_all_lookup (l : list nat) (m : gmap nat TrackState) (t : nat) :
  ended_all l m !! t = if decide (t ∈ l) then Some ended else m !! t.
Proof.
  revert m. induction l as [|x l IH]; intros m; cbn [ended_all foldl].
  - case_decide as H; [inversion H|reflexivity].
  - fold (ended_all l (<[x:=ended]> m)). rewrite IH.
    destruct (decide (t ∈ l)) as [Hin|Hnin].
    + rewrite decide_True by (right; exact Hin). reflexivity.
    + destruct (decide (x = t)) as [->|Hne].
      * rewrite decide_True by left. apply lookup_insert_eq.
      * rewrite decide_False by (intros Hc; inversion Hc; subst; contradiction).
        apply lookup_insert_ne, Hne.
Qed.

Lemma live_all_lookup (l : list nat) (m : gmap nat TrackState) (t : nat) :
  foldr (fun t' m' => <[t' := live]> m') m l !! t =
  if decide (t ∈ l) then Some live else m !! t.
Proof.
  induction l as [|x l IH]; cbn [foldr].
  - case_decide as H; [inversion H|reflexivity].
  - destruct (decide (x = t)) as [->|Hne].
    + rewrite decide_True by left. apply lookup_insert_eq.
    + rewrite lookup_insert_ne by exact Hne. rewrite IH.
      destruct (decide (t ∈ l)) as [Hin|Hnin].
      * rewrite decide_True by (right; exact Hin). reflexivity.
      * rewrite decide_False by (intros Hc; inversion Hc; subst; contradiction). reflexivity.
Qed.

Lemma stream_live_spec b s :
  stream_live b s = true <-> exists t, t ∈ stream_tracks s /\ tracks b !! t = Some live.
Proof.
  unfold stream_live, track_live. rewrite existsb_exists. split.
  - intros (t & Hin & Hl). exists t. split; [apply list_elem_of_In, Hin|].
    apply bool_decide_eq_true in Hl. exact Hl.
  - intros (t & Hin & Hl). exists t. split; [apply list_elem_of_In, Hin|].
    apply bool_decide_eq_true. exact Hl.
Qed.

Lemma media_eq w r t n l :
  media w = (r, t, n, l) ->
  streamRef (cam w) = r /\ tracks (browser w) = t /\
  next_track (browser w) = n /\ streams (browser w) = l.
Proof. unfold media. intros H. injection H as -> -> -> ->. auto. Qed.

Lemma media_fields w w' :
  media w = media w' ->
  streamRef (cam w) = streamRef (cam w') /\
  tracks (browser w) = tracks (browser w') /\
  next_track (browser w) = next_track (browser w') /\
  streams (browser w) = streams (browser w').
Proof. apply media_eq. Qed.

Lemma stream_live_tracks b b' s :
  tracks b = tracks b' -> stream_live b s = stream_live b' s.
Proof. unfold stream_live, track_live. intros ->. reflexivity. Qed.

Lemma live_streams_media w w' : media w = media w' -> live_streams w = live_streams w'.
Proof.
  intros H. destruct (media_fields _ _ H) as (_ & Ht & _ & Hs).
  unfold live_streams. rewrite Hs. apply list_filter_iff. intros s.
  rewrite (stream_live_tracks _ _ s Ht). tauto.
Qed.

Lemma stream_inv_media w w' : media w = media w' -> stream_inv w -> stream_inv w'.
Proof.
  intros H [Ho Hi Hf Hk Hc]. destruct (media_fields _ _ H) as (Hr & Ht & Hn & Hs).
  split.
  - intros s. rewrite <- Hs, <- Hr, <- (stream_live_tracks _ _ s Ht). apply Ho.
  - intros i s. rewrite <- Hs. apply Hi.
  - intros t. rewrite <- Hn, <- Ht. apply Hf.
  - intros s t. rewrite <- Hs, <- Ht. apply Hk.
  - intros s. rewrite <- Hs, <- Hr. apply Hc.
Qed.

Lemma after_save_media v w : media (after_save v w) = media w.
Proof.
  unfold media, after_save. destruct w as [c [ls rd wr tr nt st co ca pl]].
  destruct wr; reflexivity.
Qed.

Lemma awaited_media r w : media (awaited r w) = media w.
Proof.
  unfold media. rewrite awaited_browser.
  destruct (awaited_state r w) as (-> & _). reflexivity.
Qed.

Lemma failed_media e w : media (failed e w) = media w.
Proof. unfold failed. case_decide; [rewrite after_save_media|]; reflexivity. Qed.

Lemma succeeded_media s w :
  media (succeeded s w) =
  (Some s, tracks (browser w), next_track (browser w), streams (browser w)).
Proof.
  unfold succeeded. destruct (videoRef (cam w)); [rewrite after_save_media|]; reflexivity.
Qed.

Lemma begun_media w :
  media (begun w) =
  (None,
   match streamRef (cam w) with
   | Some s => ended_all (stream_tracks s) (tracks (browser w))
   | None => tracks (browser w)
   end,
   next_track (browser w), streams (browser w)).
Proof. unfold media. rewrite begun_cam, begun_browser, released_browser. reflexivity. Qed.

Lemma resumed_media r o w :
  media (resumed r o w) =
  match o with
  | Resolved n =>
      (Some (new_stream n (browser w)),
       foldr (fun t m => <[t := live]> m) (tracks (browser w)) (seq (next_track (browser w)) n),
       next_track (browser w) + n,
       streams (browser w) ++ [new_stream n (browser w)])%list
  | Rejected _ => media w
  end.
Proof.
  unfold resumed. destruct o as [n|e].
  - rewrite succeeded_media. cbn [browser with_browser]. rewrite awaited_browser. reflexivity.
  - rewrite failed_media. apply awaited_media.
Qed.

(** What the ownership invariant gives in any world that satisfies it. *)
Section Ownership.
Variable w : World.
Hypothesis Hinv : stream_inv w.

Lemma inv_no_dup : NoDup (streams (browser w)).
Proof.
  apply NoDup_alt. intros i j s Hi Hj.
  rewrite <- (inv_ids w Hinv i s Hi). apply (inv_ids w Hinv j s Hj).
Qed.

Lemma inv_live_is_owned s : s ∈ live_streams w -> streamRef (cam w) = Some s.
Proof.
  intros Hs. apply list_elem_of_filter in Hs as [Hl Hin].
  apply (inv_owned w Hinv s Hin Hl).
Qed.

Lemma inv_at_most_one : length (live_streams w) <= 1.
Proof.
  assert (Hnd : NoDup (live_streams w)) by apply NoDup_filter, inv_no_dup.
  pose proof inv_live_is_owned as Hall.
  destruct (live_streams w) as [|a [|b l]]; cbn; try lia.
  assert (a = b).
  { assert (Ha := Hall a (list_elem_of_here _ _)).
    assert (Hb := Hall b (list_elem_of_further _ _ _ (list_elem_of_here _ _))).
    congruence. }
  subst b. apply NoDup_cons in Hnd as [Hnin _]. exfalso. apply Hnin. left.
Qed.

Lemma inv_none_live : streamRef (cam w) = None -> live_streams w = [].
Proof.
  intros Hnone. pose proof inv_live_is_owned as Hall.
  destruct (live_streams w) as [|s l]; [reflexivity|].
  rewrite (Hall s (list_elem_of_here _ _)) in Hnone. discriminate.
Qed.

Lemma inv_track_bound s t :
  s ∈ streams (browser w) -> t ∈ stream_tracks s -> t < next_track (browser w).
Proof.
  intros Hs Ht. destruct (inv_known w Hinv s t Hs Ht) as [x Hx].
  destruct (le_lt_dec (next_track (browser w)) t) as [Hle|Hlt]; [|exact Hlt].
  rewrite (inv_fresh w Hinv t Hle) in Hx. discriminate.
Qed.

Lemma inv_others_stopped s :
  s ∈ streams (browser w) -> streamRef (cam w) <> Some s ->
  stream_stopped (browser w) s = true.
Proof.
  intros Hin Hne. unfold stream_stopped. apply forallb_forall. intros t Htin.
  apply list_elem_of_In in Htin. apply bool_decide_eq_true.
  destruct (inv_known w Hinv s t Hin Htin) as [[|] Hx]; [|exact Hx].
  exfalso. apply Hne. apply (inv_owned w Hinv s Hin).
  apply stream_live_spec. exists t. auto.
Qed.
End Ownership.

(** Beginning a call releases whatever was owned. *)
Lemma begun_inv w :
  stream_inv w -> stream_inv (begun w) /\ streamRef (cam (begun w)) = None.
Proof.
  intros Hinv. destruct (media_eq _ _ _ _ _ (begun_media w)) as (Hr & Ht & Hn & Hs).
  split; [|exact Hr]. split.
  - intros s Hin Hlive. exfalso. rewrite Hs in Hin.
    apply stream_live_spec in Hlive as (t & Htin & Hl). rewrite Ht in Hl.
    destruct (streamRef (cam w)) as [s0|] eqn:E.
    + rewrite ended_all_lookup in Hl. case_decide as Hd; [discriminate|].
      assert (Hlw : stream_live (browser w) s = true)
        by (apply stream_live_spec; exists t; auto).
      pose proof (inv_owned w Hinv s Hin Hlw) as Hown. rewrite E in Hown.
      injection Hown as ->. contradiction.
    + assert (Hlw : stream_live (browser w) s = true)
        by (apply stream_live_spec; exists t; auto).
      pose proof (inv_owned w Hinv s Hin Hlw) as Hown. rewrite E in Hown. discriminate.
  - intros i s. rewrite Hs. apply (inv_ids w Hinv).
  - intros t Hle. rewrite Hn in Hle. rewrite Ht.
    destruct (streamRef (cam w)) as [s0|] eqn:E; [|apply (inv_fresh w Hinv t Hle)].
    rewrite ended_all_lookup. case_decide as Hd; [|apply (inv_fresh w Hinv t Hle)].
    pose proof (inv_track_bound w Hinv s0 t (inv_current w Hinv s0 E) Hd). lia.
  - intros s t Hin Htin. rewrite Hs in Hin. rewrite Ht.
    destruct (streamRef (cam w)) as [s0|] eqn:E; [|apply (inv_known w Hinv s t Hin Htin)].
    rewrite ended_all_lookup. case_decide; [eexists; reflexivity|].
    apply (inv_known w Hinv s t Hin Htin).
  - intros s. rewrite Hr. discriminate.
Qed.

Lemma new_stream_live n b :
  stream_live (add_stream (S n) b) (new_stream (S n) b) = true.
Proof.
  apply stream_live_spec. exists (next_track b). split.
  - cbn. left.
  - cbn [add_stream tracks]. rewrite live_all_lookup. rewrite decide_True; [reflexivity|].
    cbn. left.
Qed.

(** Settling a call from a world that owns nothing. *)
Lemma resumed_inv r o w :
  stream_inv w -> streamRef (cam w) = None -> stream_inv (resumed r o w).
Proof.
  intros Hinv Hnone. destruct o as [n|e].
  2:{ apply (stream_inv_media w); [|exact Hinv]. symmetry. apply (resumed_media r (Rejected e)). }
  destruct (media_eq _ _ _ _ _ (resumed_media r (Resolved n) w)) as (Hr & Ht & Hn & Hs).
  assert (Hold : forall s t, s ∈ streams (browser w) -> t ∈ stream_tracks s ->
                 tracks (browser (resumed r (Resolved n) w)) !! t = tracks (browser w) !! t).
  { intros s t Hin Htin. rewrite Ht, live_all_lookup.
    pose proof (inv_track_bound w Hinv s t Hin Htin) as Hb.
    rewrite decide_False; [reflexivity|].
    intros Hseq. apply elem_of_seq in Hseq. lia. }
  split.
  - intros s Hin Hlive. rewrite Hr. rewrite Hs in Hin.
    apply elem_of_app in Hin as [Hin|Hin].
    + exfalso. apply stream_live_spec in Hlive as (t & Htin & Hl).
      rewrite (Hold s t Hin Htin) in Hl.
      assert (Hlw : stream_live (browser w) s = true)
        by (apply stream_live_spec; exists t; auto).
      pose proof (inv_owned w Hinv s Hin Hlw) as Hown. congruence.
    + apply list_elem_of_singleton in Hin. congruence.
  - intros i s. rewrite Hs. intros Hl.
    apply lookup_app_Some in Hl as [Hl|[Hlen Hl]].
    + apply (inv_ids w Hinv i s Hl).
    + apply list_lookup_singleton_Some in Hl as [Hi <-]. cbn. lia.
  - intros t Hle. rewrite Hn in Hle. rewrite Ht, live_all_lookup.
    rewrite decide_False by (intros Hseq; apply elem_of_seq in Hseq; lia).
    apply (inv_fresh w Hinv). lia.
  - intros s t Hin Htin. rewrite Hs in Hin. apply elem_of_app in Hin as [Hin|Hin].
    + rewrite (Hold s t Hin Htin). apply (inv_known w Hinv s t Hin Htin).
    + apply list_elem_of_singleton in Hin. subst s. cbn in Htin.
      rewrite Ht, live_all_lookup, decide_True by exact Htin. eexists; reflexivity.
  - intros s. rewrite Hr, Hs. intros [= <-]. apply elem_of_app. right. left.
Qed.

Lemma resumed_live r o w :
  stream_inv w -> streamRef (cam w) = None ->
  match o with
  | Resolved (S n) =>
      streamRef (cam (resumed r o w)) = Some (new_stream (S n) (browser w)) /\
      live_streams (resumed r o w) = [new_stream (S n) (browser w)]
  | Resolved 0 => live_streams (resumed r o w) = []
  | Rejected _ => streamRef (cam (resumed r o w)) = None /\ live_streams (resumed r o w) = []
  end.
Proof.
  intros Hinv Hnone. pose proof (resumed_inv r o w Hinv Hnone) as Hinv'.
  destruct o as [[|n]|e].
  - destruct (live_streams _) as [|s l] eqn:E; [reflexivity|]. exfalso.
    assert (Hs : s ∈ live_streams (resumed r (Resolved 0) w)) by (rewrite E; left).
    apply list_elem_of_filter in Hs as [Hl Hin].
    pose proof (inv_owned _ Hinv' s Hin Hl) as Hown.
    destruct (media_eq _ _ _ _ _ (resumed_media r (Resolved 0) w)) as (Hr & Ht & _ & _).
    rewrite Hr in Hown. injection Hown as <-.
    apply stream_live_spec in Hl as (t & Htin & _). cbn in Htin. inversion Htin.
  - destruct (media_eq _ _ _ _ _ (resumed_media r (Resolved (S n)) w)) as (Hr & Ht & _ & Hs).
    split; [exact Hr|].
    assert (Hnew : new_stream (S n) (browser w) ∈ live_streams (resumed r (Resolved (S n)) w)).
    { apply list_elem_of_filter. split.
      - rewrite <- (new_stream_live n (browser w)). apply stream_live_tracks.
        rewrite Ht. reflexivity.
      - rewrite Hs. apply elem_of_app. right. left. }
    pose proof (inv_at_most_one _ Hinv') as Hlen.
    assert (Hall : forall s, s ∈ live_streams (resumed r (Resolved (S n)) w) ->
                   s = new_stream (S n) (browser w)).
    { intros s Hin. apply list_elem_of_filter in Hin as [Hl Hin].
      pose proof (inv_owned _ Hinv' s Hin Hl) as Hown. congruence. }
    destruct (live_streams _) as [|a [|b l]]; cbn in Hlen; try lia.
    + inversion Hnew.
    + rewrite (Hall a); [reflexivity|left].
  - destruct (media_fields _ _ (resumed_media r (Rejected e) w)) as (Hr & _).
    split; [congruence|]. apply inv_none_live; [exact Hinv'|congruence].
Qed.

Lemma step_begin w : step w Begin = begun w.
Proof. cbn [step]. rewrite begin_run. reflexivity. Qed.

Lemma step_settle w r o : step w (Settle r o) = resumed r o w.
Proof. cbn [step]. rewrite resume_run. reflexivity. Qed.

Lemma request_world r o w :
  snd (requestCameraPermission r o w) = resumed r o (begun w).
Proof. rewrite request_run. reflexivity. Qed.

Lemma exec_consecutive os w : exec (consecutive os) w = requests os w.
Proof.
  revert w. induction os as [|[r o] os IH]; intros w; [reflexivity|].
  cbn [consecutive flat_map app exec foldl requests fst snd].
  rewrite step_begin, step_settle, request_world. apply IH.
Qed.

Lemma requested_inv r o w : stream_inv w -> stream_inv (resumed r o (begun w)).
Proof. intros Hinv. destruct (begun_inv w Hinv) as [Hb Hn]. apply resumed_inv; assumption. Qed.

Lemma prefix_inv os k w :
  stream_inv w -> stream_inv (exec (take k (consecutive os)) w).
Proof.
  revert k w. induction os as [|[r o] os IH]; intros k w Hinv.
  - cbn. rewrite take_nil. exact Hinv.
  - cbn [consecutive flat_map app fst snd].
    destruct k as [|[|k]]; cbn [take exec foldl].
    + exact Hinv.
    + rewrite step_begin. apply begun_inv, Hinv.
    + rewrite step_begin, step_settle. apply IH, requested_inv, Hinv.
Qed.

Lemma requests_inv os w : stream_inv w -> stream_inv (requests os w).
Proof.
  intros Hinv. rewrite <- exec_consecutive.
  rewrite <- (firstn_all (consecutive os)). apply prefix_inv, Hinv.
Qed.



Lemma page_load_inv storage readable writable :
  stream_inv (page_load storage readable writable).
Proof.
  split; cbn.
  - intros s Hin. inversion Hin.
  - intros i s Hl. rewrite lookup_nil in Hl. discriminate.
  - intros t _. apply lookup_empty.
  - intros s t Hin. inversion Hin.
  - intros s Hs. discriminate.
Qed.

Lemma filter_agree {A} (P Q : A -> Prop) `{!forall x, Decision (P x)}
    `{!forall x, Decision (Q x)} (l : list A) :
  (forall x, x ∈ l -> P x <-> Q x) -> filter P l = filter Q l.
Proof.
  induction l as [|a l IH]; intros Hagree; [reflexivity|].
  rewrite !filter_cons.
  assert (Ha : P a <-> Q a) by (apply Hagree; left).
  rewrite IH by (intros x Hx; apply Hagree; right; exact Hx).
  destruct (decide (P a)), (decide (Q a)); tauto.
Qed.

(** A resolved acquisition adds its stream to whatever was live: nothing in
    the settling half stops a stream. *)
Lemma resumed_adds_live r n w :
  stream_inv w ->
  live_streams (resumed r (Resolved (S n)) w) =
  (live_streams w ++ [new_stream (S n) (browser w)])%list.
Proof.
  intros Hinv.
  destruct (media_eq _ _ _ _ _ (resumed_media r (Resolved (S n)) w)) as (Hr & Ht & Hn & Hs).
  unfold live_streams. rewrite Hs, filter_app. f_equal.
  - apply filter_agree. intros s Hin.
    assert (Hold : forall t, t ∈ stream_tracks s ->
              tracks (browser (resumed r (Resolved (S n)) w)) !! t = tracks (browser w) !! t).
    { intros t Htin. rewrite Ht, live_all_lookup.
      pose proof (inv_track_bound w Hinv s t Hin Htin) as Hb.
      rewrite decide_False; [reflexivity|].
      intros Hseq. apply elem_of_seq in Hseq. lia. }
    rewrite !stream_live_spec.
    split; intros (t & Htin & Hl); exists t; (split; [exact Htin|]);
      [rewrite <- (Hold t Htin)|rewrite (Hold t Htin)]; exact Hl.
  - rewrite filter_cons, filter_nil. rewrite decide_True; [reflexivity|].
    rewrite <- (new_stream_live n (browser w)). apply stream_live_tracks.
    rewrite Ht. reflexivity.
Qed.


Lemma begun_new_stream n w : new_stream n (browser (begun w)) = new_stream n (browser w).
Proof. rewrite begun_browser, released_browser. reflexivity. Qed.

(** X1.  Two calls that overlap: the second begins while the first is still
    awaiting [getUserMedia], and both promises resolve with at least one
    track.  From a world in which whatever is live is the stream [streamRef]
    holds, whatever React renders meanwhile: the first call stores its stream
    [s1], the second overwrites [streamRef] with its own stream [s2] without
    stopping anything, so both streams are live and every track of [s1] is
    still live; [stopCurrentStream] afterwards stops [s2] only, and [s1]
    stays live with nothing referring to it. *)
Theorem overlapping_requests_leak (r1 r2 : bool) (n1 n2 : nat) (w : World) :
  stream_inv w ->
  let w1 := exec [Begin; Begin; Settle r1 (Resolved (S n1))] w in
  let w2 := exec [Begin; Begin; Settle r1 (Resolved (S n1)); Settle r2 (Resolved (S n2))] w in
  let s1 := new_stream (S n1) (browser w) in
  let s2 := new_stream (S n2) (browser w1) in
  streamRef (cam w1) = Some s1 /\
  live_streams w1 = [s1] /\
  streamRef (cam w2) = Some s2 /\
  s1 <> s2 /\
  live_streams w2 = [s1; s2] /\
  (forall t, t ∈ stream_tracks s1 -> tracks (browser w2) !! t = Some live) /\
  streamRef (cam (snd (stopCurrentStream w2))) = None /\
  live_streams (snd (stopCurrentStream w2)) = [s1].
Proof.
  intros Hinv. cbv zeta. cbn [exec foldl]. rewrite !step_begin, !step_settle.
  rewrite <- (begun_new_stream (S n1) w), <- (begun_new_stream (S n1) (begun w)).
  destruct (begun_inv w Hinv) as [Hi1 _]. destruct (begun_inv _ Hi1) as [Hi0 Hn0].
  set (w0 := begun (begun w)) in *.
  pose proof (resumed_live r1 (Resolved (S n1)) w0 Hi0 Hn0) as [HrA HlA].
  pose proof (resumed_inv r1 (Resolved (S n1)) w0 Hi0 Hn0) as HiA.
  destruct (media_eq _ _ _ _ _ (resumed_media r1 (Resolved (S n1)) w0)) as (_ & HtA & HnA & HsA).
  set (wA := resumed r1 (Resolved (S n1)) w0) in *.
  destruct (media_eq _ _ _ _ _ (resumed_media r2 (Resolved (S n2)) wA)) as (HrB & HtB & HnB & HsB).
  pose proof (resumed_adds_live r2 n2 wA HiA) as HlB. rewrite HlA in HlB.
  set (wB := resumed r2 (Resolved (S n2)) wA) in *.
  set (s1 := new_stream (S n1) (browser w0)) in *.
  set (s2 := new_stream (S n2) (browser wA)) in *.
  assert (Hold : forall s t, s ∈ streams (browser wA) -> t ∈ stream_tracks s ->
                 t ∉ stream_tracks s2).
  { intros s t Hin Htin Hseq. pose proof (inv_track_bound wA HiA s t Hin Htin) as Hb.
    apply elem_of_seq in Hseq. lia. }
  assert (Hin1 : s1 ∈ streams (browser wA)) by (rewrite HsA; apply elem_of_app; right; left).
  split; [exact HrA|]. split; [exact HlA|]. split; [exact HrB|]. split.
  { intros Heq. apply (f_equal stream_id) in Heq.
    change (length (streams (browser w0)) = length (streams (browser wA))) in Heq.
    rewrite HsA, length_app in Heq. cbn [length] in Heq. lia. }
  split; [exact HlB|]. split.
  { intros t Htin. rewrite HtB, live_all_lookup.
    rewrite decide_False by (apply (Hold s1 t Hin1 Htin)).
    rewrite HtA, live_all_lookup, decide_True by exact Htin. reflexivity. }
  rewrite stopCurrentStream_run. cbn [snd]. unfold released. rewrite HrB.
  split; [reflexivity|].
  unfold live_streams. cbn [browser with_cam with_browser streams put_tracks tracks].
  rewrite HsB, filter_app.
  replace (filter _ [s2]) with (@nil MediaStream).
  2:{ rewrite filter_cons, filter_nil. rewrite decide_False; [reflexivity|].
      intros Hl. apply stream_live_spec in Hl as (t & Htin & Hl).
      cbn [tracks put_tracks] in Hl. rewrite ended_all_lookup, decide_True in Hl by exact Htin.
      discriminate. }
  rewrite app_nil_r. rewrite <- HlA. unfold live_streams.
  apply filter_agree. intros s Hin. rewrite !stream_live_spec.
  assert (Hsame : forall t, t ∈ stream_tracks s ->
            ended_all (stream_tracks s2) (tracks (browser wB)) !! t = tracks (browser wA) !! t).
  { intros t Htin. rewrite ended_all_lookup, decide_False by (apply (Hold s t Hin Htin)).
    rewrite HtB, live_all_lookup, decide_False by (apply (Hold s t Hin Htin)). reflexivity. }
  cbn [tracks put_tracks].
  split; intros (t & Htin & Hl); exists t; (split; [exact Htin|]);
    [rewrite <- (Hsame t Htin)|rewrite (Hsame t Htin)]; exact Hl.
Qed.

Lemma overlapping_requests_witness :
  stream_inv (page_load ∅ true true) /\
  let w2 := exec [Begin; Begin; Settle true (Resolved 1); Settle true (Resolved 1)]
                 (page_load ∅ true true) in
  streamRef (cam w2) = Some {| stream_id := 1; stream_tracks := [1] |} /\
  live_streams w2 =
    [ {| stream_id := 0; stream_tracks := [0] |}; {| stream_id := 1; stream_tracks := [1] |} ] /\
  live_streams (snd (stopCurrentStream w2)) = [ {| stream_id := 0; stream_tracks := [0] |} ].
Proof.
  split; [apply page_load_inv|].
  destruct (overlapping_requests_leak true true 0 0 (page_load ∅ true true)
              (page_load_inv ∅ true true)) as (_ & _ & H3 & _ & H5 & _ & _ & H8).
  repeat split; assumption.
Defined.



(** * Part V: the sampling loop *)

Lemma rgba_length p : length (Sampling.rgba p) = 4.
Proof. destruct p as [[[r g] b] a]. reflexivity. Qed.

Lemma flat_map_constant_length {A B} (f : A -> list B) (l : list A) (k : nat) :
  (forall x, length (f x) = k) -> length (flat_map f l) = length l * k.
Proof.
  intros Hf. induction l as [|x l IH]; [reflexivity|].
  cbn [flat_map]. rewrite length_app, Hf, IH. cbn. lia.
Qed.

Lemma picture_length video :
  length (picture video) = 4 * Sampling.videoWidth video * Sampling.videoHeight video.
Proof.
  unfold picture.
  rewrite (flat_map_constant_length _ _ (4 * Sampling.videoWidth video)).
  - rewrite length_seq. lia.
  - intros y. rewrite (flat_map_constant_length _ _ 4).
    + rewrite length_seq. lia.
    + intros x. apply rgba_length.
Qed.

Lemma flat_map_ext_seq {B} (f g : nat -> list B) (n : nat) :
  (forall x, x < n -> f x = g x) -> flat_map f (seq 0 n) = flat_map g (seq 0 n).
Proof.
  intros H.
  assert (G : forall a, a + n <= n -> flat_map f (seq a n) = flat_map g (seq a n)).
  { revert H. generalize n at 1 3 as bound. intros bound H.
    induction n as [|n IH]; intros a Ha; [reflexivity|].
    cbn [seq flat_map]. rewrite H by lia. f_equal. apply IH. lia. }
  apply G. lia.
Qed.

(** Reading back a canvas on which the video was just drawn gives the
    picture of the video. *)
Lemma drawn_canvas_data video (bm : nat -> nat -> Pixel) :
  flat_map
    (fun y => flat_map
       (fun x => Sampling.rgba
          (Sampling.canvas_pixel
             {| canvas_width := Sampling.videoWidth video;
                canvas_height := Sampling.videoHeight video;
                bitmap := fun x' y' =>
                  if (x' <? Sampling.videoWidth video)%nat && (y' <? Sampling.videoHeight video)%nat
                  then Sampling.frame video x' y' else bm x' y' |} x y))
       (seq 0 (Sampling.videoWidth video)))
    (seq 0 (Sampling.videoHeight video)) = picture video.
Proof.
  unfold picture. apply flat_map_ext_seq. intros y Hy. apply flat_map_ext_seq. intros x Hx.
  unfold Sampling.canvas_pixel. cbn [canvas_width canvas_height bitmap].
  apply Nat.ltb_lt in Hx, Hy. rewrite Hx, Hy. reflexivity.
Qed.

(** What one run of [processFrame] leaves when a frame is read. *)
Lemma processFrame_ready video s :
  Sampling.readyState video = Sampling.HAVE_ENOUGH_DATA ->
  0 < Sampling.videoWidth video -> 0 < Sampling.videoHeight video ->
  exists cv,
    Sampling.processFrame video s =
    (inr tt,
     {| Sampling.canvas := cv;
        Sampling.animationFrame := Some (Sampling.next_handle s);
        Sampling.play_listener := Sampling.play_listener s;
        Sampling.callbacks := Sampling.callbacks s ++ [Sampling.next_handle s];
        Sampling.next_handle := S (Sampling.next_handle s);
        Sampling.delivered :=
          Sampling.delivered s ++
          [ {| Sampling.width := Sampling.videoWidth video;
               Sampling.height := Sampling.videoHeight video;
               Sampling.data := picture video |} ] |}).
Proof.
  intros Hr Hw Hh. destruct s as [cv af pl cbs nh dl].
  assert (Ew : (Sampling.videoWidth video =? 0)%nat = false) by (apply Nat.eqb_neq; lia).
  assert (Eh : (Sampling.videoHeight video =? 0)%nat = false) by (apply Nat.eqb_neq; lia).
  unfold Sampling.processFrame. rewrite Hr. cbn [Nat.eqb Sampling.HAVE_ENOUGH_DATA].
  unfold Sampling.set_canvas_width, Sampling.set_canvas_height, Sampling.drawImage,
    Sampling.getImageData, Sampling.onFrame, Sampling.requestAnimationFrame,
    bind, gets, modify, ret, throw.
  cbn [Sampling.canvas Sampling.put_canvas canvas_width canvas_height bitmap].
  rewrite Ew, Eh. cbn [orb].
  cbn [Sampling.put_delivered Sampling.put_animationFrame
    Sampling.canvas Sampling.animationFrame Sampling.play_listener Sampling.callbacks
    Sampling.next_handle Sampling.delivered Sampling.put_canvas].
  rewrite drawn_canvas_data. eexists. reflexivity.
Qed.

Lemma processFrame_waiting video s :
  Sampling.readyState video <> Sampling.HAVE_ENOUGH_DATA ->
  Sampling.processFrame video s =
  (inr tt,
   {| Sampling.canvas := Sampling.canvas s;
      Sampling.animationFrame := Some (Sampling.next_handle s);
      Sampling.play_listener := Sampling.play_listener s;
      Sampling.callbacks := Sampling.callbacks s ++ [Sampling.next_handle s];
      Sampling.next_handle := S (Sampling.next_handle s);
      Sampling.delivered := Sampling.delivered s |}).
Proof.
  intros Hr. apply Nat.eqb_neq in Hr. unfold Sampling.processFrame. rewrite Hr.
  destruct s; reflexivity.
Qed.

Lemma tick_single video s h :
  Sampling.callbacks s = [h] ->
  Sampling.handle s (Sampling.tick video) =
  snd (Sampling.processFrame video (Sampling.put_callbacks [] s)).
Proof. intros Hc. cbn [Sampling.handle]. unfold Sampling.run_callbacks. rewrite Hc. reflexivity. Qed.

Lemma tick_idle video s :
  Sampling.callbacks s = [] -> Sampling.handle s (Sampling.tick video) = s.
Proof.
  intros Hc. cbn [Sampling.handle]. unfold Sampling.run_callbacks. rewrite Hc.
  destruct s. cbn in Hc. subst. reflexivity.
Qed.

Lemma ticks_idle videos s :
  Sampling.callbacks s = [] -> Sampling.run (map Sampling.tick videos) s = s.
Proof.
  intros Hc. induction videos as [|v vs IH]; [reflexivity|].
  cbn [map Sampling.run foldl]. rewrite tick_idle by exact Hc. exact IH.
Qed.

Lemma beginSampling_idle c s0 :
  Sampling.beginSampling c = Some s0 ->
  Sampling.callbacks s0 = [] /\ Sampling.delivered s0 = [] /\
  Sampling.animationFrame s0 = None /\ Sampling.play_listener s0 = true /\
  sampling_guard c = true.
Proof.
  unfold Sampling.beginSampling. destruct (sampling_guard c); [|discriminate].
  intros [= <-]. auto.
Qed.

(** One tick of a loop with a single pending callback. *)
Lemma tick_single_outcome (video : Sampling.VideoState) (s : Sampling.Sampler) (h : nat) :
  has_picture video ->
  Sampling.callbacks s = [h] ->
  let s' := Sampling.handle s (Sampling.tick video) in
  Sampling.callbacks s' = [Sampling.next_handle s] /\
  Sampling.animationFrame s' = Some (Sampling.next_handle s) /\
  (if decide (Sampling.readyState video = Sampling.HAVE_ENOUGH_DATA)
   then Sampling.delivered s' =
        Sampling.delivered s ++
        [ {| Sampling.width := Sampling.videoWidth video;
             Sampling.height := Sampling.videoHeight video;
             Sampling.data := picture video |} ]
   else Sampling.delivered s' = Sampling.delivered s).
Proof.
  intros Hp Hc s'. subst s'. rewrite (tick_single video s h Hc).
  destruct (decide (Sampling.readyState video = Sampling.HAVE_ENOUGH_DATA)) as [Hr|Hr].
  - destruct (Hp Hr) as [Hw Hh].
    destruct (processFrame_ready video (Sampling.put_callbacks [] s) Hr Hw Hh) as [cv ->].
    cbn [snd Sampling.callbacks Sampling.animationFrame Sampling.delivered
         Sampling.put_callbacks Sampling.next_handle]. auto.
  - rewrite (processFrame_waiting video _ Hr).
    cbn [snd Sampling.callbacks Sampling.animationFrame Sampling.delivered
         Sampling.put_callbacks Sampling.next_handle]. auto.
Qed.

(** Until the video fires 'play' nothing is scheduled and nothing delivered;
    'play' schedules the first tick. *)
Lemma sampling_waits_for_play c s0 videos :
  Sampling.beginSampling c = Some s0 ->
  let idle := Sampling.run (map Sampling.tick videos) s0 in
  Sampling.delivered idle = [] /\ Sampling.callbacks idle = [] /\
  Sampling.callbacks (Sampling.handle idle Sampling.play) = [Sampling.next_handle s0].
Proof.
  intros Hb. destruct (beginSampling_idle c s0 Hb) as (H1 & H2 & _ & H4 & _).
  cbn zeta. rewrite (ticks_idle videos s0 H1). cbn [Sampling.handle].
  rewrite H4. destruct s0. cbn in *. subst. auto.
Qed.

(** C7.  On a tick of the running loop, for a video that has a picture
    whenever it reports enough data: the next tick is scheduled in every case
    ([animationFrame] names the one pending callback); if the video reports
    HAVE_ENOUGH_DATA exactly one buffer is handed to [onFrame], whose width
    and height are the video's native width and height and whose data are the
    picture, 4 bytes per pixel; otherwise nothing is delivered.  A sampler that
    has not seen 'play' delivers nothing and schedules nothing, whatever ticks
    occur, and 'play' schedules its first tick. *)
Theorem tick_delivers_native_frame
    (video : Sampling.VideoState) (s : Sampling.Sampler) (h : nat) :
  has_picture video ->
  Sampling.callbacks s = [h] ->
  let s' := Sampling.handle s (Sampling.tick video) in
  Sampling.callbacks s' = [Sampling.next_handle s] /\
  Sampling.animationFrame s' = Some (Sampling.next_handle s) /\
  (if decide (Sampling.readyState video = Sampling.HAVE_ENOUGH_DATA)
   then Sampling.delivered s' =
        Sampling.delivered s ++
        [ {| Sampling.width := Sampling.videoWidth video;
             Sampling.height := Sampling.videoHeight video;
             Sampling.data := picture video |} ]
   else Sampling.delivered s' = Sampling.delivered s) /\
  length (picture video) = 4 * Sampling.videoWidth video * Sampling.videoHeight video /\
  (forall c s0 videos,
      Sampling.beginSampling c = Some s0 ->
      let idle := Sampling.run (map Sampling.tick videos) s0 in
      Sampling.delivered idle = [] /\ Sampling.callbacks idle = [] /\
      Sampling.callbacks (Sampling.handle idle Sampling.play) = [Sampling.next_handle s0]).
Proof.
  intros Hp Hc s'.
  destruct (tick_single_outcome video s h Hp Hc) as (H1 & H2 & H3).
  split; [exact H1|]. split; [exact H2|]. split; [exact H3|].
  split; [apply picture_length|]. apply sampling_waits_for_play.
Qed.

Lemma tick_delivers_witness :
  let s := Sampling.handle
             {| Sampling.canvas := blank_canvas; Sampling.animationFrame := None;
                Sampling.play_listener := true; Sampling.callbacks := [];
                Sampling.next_handle := 1; Sampling.delivered := [] |} Sampling.play in
  has_picture small_video /\ Sampling.callbacks s = [1] /\
  Sampling.delivered (Sampling.handle s (Sampling.tick small_video)) =
    [ {| Sampling.width := 2; Sampling.height := 2;
         Sampling.data := [0; 0; 7; 255; 1; 0; 7; 255; 0; 1; 7; 255; 1; 1; 7; 255] |} ] /\
  Sampling.callbacks (Sampling.handle s (Sampling.tick small_video)) = [2].
Proof.
  assert (Hp : has_picture small_video) by (intros _; cbn; lia).
  split; [exact Hp|]. split; [reflexivity|].
  pose proof (tick_delivers_native_frame small_video
                (Sampling.handle
                   {| Sampling.canvas := blank_canvas; Sampling.animationFrame := None;
                      Sampling.play_listener := true; Sampling.callbacks := [];
                      Sampling.next_handle := 1; Sampling.delivered := [] |} Sampling.play)
                1 Hp eq_refl) as (Hc & _ & Hd & _).
  split; [exact Hd|exact Hc].
Defined.

Lemma tick_keeps_single_loop video s :
  has_picture video -> single_loop s -> single_loop (Sampling.handle s (Sampling.tick video)).
Proof.
  intros Hp (h & Hc & _).
  destruct (tick_single_outcome video s h Hp Hc) as (Hc' & Ha' & _).
  exists (Sampling.next_handle s). auto.
Qed.

Lemma ticks_keep_single_loop videos s :
  Forall has_picture videos -> single_loop s ->
  single_loop (Sampling.run (map Sampling.tick videos) s).
Proof.
  intros Hall. revert s. induction Hall as [|v vs Hv _ IH]; intros s Hs; [exact Hs|].
  cbn [map Sampling.run foldl]. apply IH, tick_keeps_single_loop; assumption.
Qed.

Lemma endSampling_single_loop s :
  single_loop s ->
  Sampling.callbacks (Sampling.handle s Sampling.endSampling) = [] /\
  Sampling.delivered (Sampling.handle s Sampling.endSampling) = Sampling.delivered s.
Proof.
  intros (h & Hc & Ha). cbn [Sampling.handle]. unfold Sampling.cleanup, bind, gets.
  rewrite Ha. cbn. rewrite Hc. cbn. rewrite Nat.eqb_refl. auto.
Qed.

Lemma filter_twice {A} (f : A -> bool) (l : list A) :
  List.filter f (List.filter f l) = List.filter f l.
Proof.
  induction l as [|x l IH]; [reflexivity|]. cbn.
  destruct (f x) eqn:E; cbn; [rewrite E, IH|]; auto.
Qed.

(** Cancelling twice is cancelling once. *)
Lemma endSampling_idempotent s :
  Sampling.handle (Sampling.handle s Sampling.endSampling) Sampling.endSampling =
  Sampling.handle s Sampling.endSampling.
Proof.
  cbn [Sampling.handle]. unfold Sampling.cleanup, bind, gets.
  destruct s as [cv [h|] pl cbs nh dl]; cbn; [|reflexivity].
  rewrite filter_twice. reflexivity.
Qed.

(** The case in which cancellation works: the video fired 'play' once before
    the cleanup and never after. *)
Lemma single_play_cancellation (c : Camera) (s0 : Sampling.Sampler)
    (before after : list Sampling.VideoState) :
  Sampling.beginSampling c = Some s0 ->
  Forall has_picture before ->
  let running := Sampling.run (Sampling.play :: map Sampling.tick before) s0 in
  let cancelled := Sampling.handle running Sampling.endSampling in
  Sampling.delivered (Sampling.run (map Sampling.tick after) cancelled) =
  Sampling.delivered running /\
  Sampling.callbacks (Sampling.run (map Sampling.tick after) cancelled) = [].
Proof.
  intros Hb Hall running cancelled.
  destruct (beginSampling_idle c s0 Hb) as (H1 & _ & _ & H4 & _).
  assert (Hs : single_loop running).
  { subst running. cbn [Sampling.run foldl]. apply ticks_keep_single_loop; [exact Hall|].
    cbn [Sampling.handle]. rewrite H4. exists (Sampling.next_handle s0).
    destruct s0. cbn in *. subst. auto. }
  destruct (endSampling_single_loop running Hs) as [Hc Hd].
  subst cancelled. rewrite (ticks_idle after _ Hc). auto.
Qed.

Lemma single_play_cancellation_witness :
  Sampling.beginSampling showing_video = Some mounted_sampler /\
  Forall has_picture [small_video; loading_video] /\
  let running := Sampling.run (Sampling.play :: map Sampling.tick [small_video; loading_video])
                              mounted_sampler in
  let cancelled := Sampling.handle running Sampling.endSampling in
  Sampling.delivered (Sampling.run (map Sampling.tick [small_video; small_video]) cancelled) =
  Sampling.delivered running /\
  Sampling.callbacks (Sampling.run (map Sampling.tick [small_video; small_video]) cancelled) = [].
Proof.
  assert (Hall : Forall has_picture [small_video; loading_video]).
  { repeat constructor; intros H; cbn; lia. }
  split; [reflexivity|]. split; [exact Hall|].
  exact (single_play_cancellation showing_video mounted_sampler
           [small_video; loading_video] [small_video; small_video] eq_refl Hall).
Defined.

(** C2 (fails on the code).  The cleanup cancels the one handle in
    [animationFrame] and leaves the 'play' listener registered.  With the
    effect running on a mounted video: after two 'play' events and the cleanup
    nothing has been delivered yet, and three further ticks deliver three
    frames, with a callback still pending; and a 'play' that comes after the
    cleanup starts a loop that delivers on every tick. *)
Theorem cancelled_sampling_still_delivers :
  Sampling.beginSampling showing_video = Some mounted_sampler /\
  length (Sampling.delivered
            (Sampling.run [Sampling.play; Sampling.play; Sampling.endSampling]
                          mounted_sampler)) = 0 /\
  length (Sampling.delivered
            (Sampling.run [Sampling.play; Sampling.play; Sampling.endSampling;
                           Sampling.tick small_video; Sampling.tick small_video;
                           Sampling.tick small_video]
                          mounted_sampler)) = 3 /\
  length (Sampling.delivered
            (Sampling.run [Sampling.endSampling; Sampling.play;
                           Sampling.tick small_video; Sampling.tick small_video]
                          mounted_sampler)) = 2 /\
  Sampling.callbacks
    (Sampling.run [Sampling.play; Sampling.play; Sampling.endSampling;
                   Sampling.tick small_video] mounted_sampler) = [3].
Proof. vm_compute. repeat split; reflexivity. Qed.

(** A tick on a video that is still loading delivers nothing and keeps the
    loop going. *)
Example tick_while_loading :
  let s := Sampling.run [Sampling.play; Sampling.tick loading_video; Sampling.tick loading_video]
                        mounted_sampler in
  Sampling.delivered s = [] /\ Sampling.callbacks s = [3] /\
  Sampling.animationFrame s = Some 3.
Proof. vm_compute. repeat split; reflexivity. Qed.

(** A ready video without a picture: [getImageData] throws, nothing is
    delivered and the loop is not rescheduled. *)
Example tick_without_picture :
  let blank := {| Sampling.readyState := 4; Sampling.videoWidth := 0;
                  Sampling.videoHeight := 0; Sampling.frame := fun _ _ => (0, 0, 0, 0) |} in
  let s := Sampling.run [Sampling.play; Sampling.tick blank] mounted_sampler in
  fst (Sampling.processFrame blank mounted_sampler) = inl {| err_name := "IndexSizeError" |} /\
  Sampling.delivered s = [] /\ Sampling.callbacks s = [].
Proof. vm_compute. repeat split; reflexivity. Qed.

(** * Part VI: every path of the mount effect *)

Lemma check_unreadable p w :
  storage_readable (browser w) = false ->
  checkCameraAvailability p w = (inr tt, check_failed (after_getItem w)).
Proof.
  intros Hr. unfold checkCameraAvailability, try_catch. unfold bind at 1.
  unfold localStorage_getItem, bind, log_call, modify, gets, throw.
  cbn [browser with_browser put_calls storage_readable]. rewrite Hr. reflexivity.
Qed.

Lemma enumerateDevices_run p w :
  enumerateDevices p (after_getItem w) =
  (match devices p with inr ds => inr ds | inl e => inl e end, enumerated p w).
Proof.
  unfold enumerateDevices. unfold bind at 1 2. unfold log_call at 1. unfold modify at 1.
  rewrite await_run. unfold enumerated. destruct (devices p); reflexivity.
Qed.

Lemma permissions_query_run p answer w :
  permissions_query p answer w =
  (match answer with inr st => inr st | inl e => inl e end, queried p w).
Proof.
  unfold permissions_query. unfold bind at 1 2. unfold log_call at 1. unfold modify at 1.
  rewrite await_run. unfold queried. destruct answer; reflexivity.
Qed.

Section Unsaved.
Variable p : Platform.
Variable w : World.
Hypothesis Hreadable : storage_readable (browser w) = true.
Hypothesis Hunsaved : localStorage (browser w) !! "cameraPermission" <> Some "granted".

Lemma check_unsaved :
  checkCameraAvailability p w =
  match devices p with
  | inl _ => (inr tt, check_failed (enumerated p w))
  | inr ds =>
      if existsb is_videoinput ds then
        match permissions p with
        | None => (inr tt, with_cam (put_isCameraAvailable true) (enumerated p w))
        | Some (inl _) =>
            (inr tt, check_failed (queried p (with_cam (put_isCameraAvailable true)
                                                   (enumerated p w))))
        | Some (inr st) =>
            if decide (st = granted)
            then (inr tt, resumed (rerender p) (acquisition p) (begun (listening p st w)))
            else (inr tt, listening p st w)
        end
      else (inr tt, with_cam (put_error msg_no_camera)
                      (with_cam (put_isCameraAvailable false) (enumerated p w)))
  end.
Proof.
  unfold checkCameraAvailability, try_catch. unfold bind at 1.
  rewrite getItem_run by assumption.
  case_decide; [contradiction|].
  unfold bind at 1. rewrite enumerateDevices_run.
  destruct (devices p) as [e|ds]; [reflexivity|].
  unfold bind at 1. unfold setIsCameraAvailable at 1. unfold modify at 1.
  destruct (existsb is_videoinput ds); cbn [negb]; [|reflexivity].
  destruct (permissions p) as [[e|st]|]; [| |reflexivity].
  - unfold bind at 1. rewrite permissions_query_run. reflexivity.
  - unfold bind at 1. rewrite permissions_query_run.
    unfold bind at 1. unfold setPermissionStatus at 1. unfold modify at 1.
    unfold bind at 1. unfold modify at 1.
    case_decide; [|reflexivity]. rewrite request_run. reflexivity.
Qed.
End Unsaved.

(** X5.  The mount effect never throws, whatever the storage and the platform
    answer. *)
Theorem checkCameraAvailability_never_throws (p : Platform) (w : World) :
  fst (checkCameraAvailability p w) = inr tt.
Proof.
  destruct (storage_readable (browser w)) eqn:Hr.
  - destruct (decide (localStorage (browser w) !! "cameraPermission" = Some "granted"))
      as [Hs|Hs].
    + rewrite check_saved_granted by assumption. reflexivity.
    + rewrite check_unsaved by assumption.
      destruct (devices p) as [e|ds]; [reflexivity|].
      destruct (existsb is_videoinput ds); [|reflexivity].
      destruct (permissions p) as [[e|st]|]; try reflexivity.
      case_decide; reflexivity.
  - rewrite check_unreadable by assumption. reflexivity.
Qed.

(** X6.  Whatever sends the mount effect into its [catch] block leaves the same
    trace: the check-failed message, and nothing acquired. *)
Theorem failed_check_sets_message (p : Platform) (w : World) :
  check_fails p w ->
  let w' := snd (checkCameraAvailability p w) in
  error (cam w') = msg_check_failed /\
  permissionStatus (cam w') = permissionStatus (cam w) /\
  streamRef (cam w') = streamRef (cam w) /\
  isCameraAvailable (cam w') =
    (if has_camera p && storage_readable (browser w) then true
     else isCameraAvailable (cam w)) /\
  permission_listener (browser w') = permission_listener (browser w) /\
  localStorage (browser w') = localStorage (browser w) /\
  media w' = media w /\
  existsb is_getUserMedia (calls (browser w')) = existsb is_getUserMedia (calls (browser w)).
Proof.
  intros Hf w'. subst w'. destruct Hf as [Hr|(Hr & Hs & Hf)].
  - rewrite check_unreadable by assumption. rewrite Hr, andb_false_r.
    cbn [snd]. unfold check_failed, after_getItem, media. cbn.
    rewrite existsb_app. cbn. rewrite orb_false_r. auto 10.
  - rewrite check_unsaved by assumption. rewrite Hr, andb_true_r. unfold has_camera in *.
    destruct Hf as [[e He]|[Hc [e He]]].
    + rewrite He. cbn [snd]. unfold check_failed, enumerated, media.
      destruct (awaited_state (rerender p)
                  (with_browser (fun b => put_calls (calls b ++ [call_enumerateDevices]) b)
                     (after_getItem w))) as (H1 & H2 & H3 & H4).
      cbn [cam with_cam with_browser browser put_error error permissionStatus streamRef
           isCameraAvailable].
      rewrite H1, H3, H4, awaited_browser. cbn.
      rewrite !existsb_app. cbn. rewrite !orb_false_r. auto 10.
    + destruct (devices p) as [e'|ds]; [discriminate|]. rewrite Hc, He. cbn [snd].
      unfold check_failed, queried, enumerated, media.
      cbn [cam with_cam with_browser browser put_error error permissionStatus streamRef
           isCameraAvailable].
      match goal with |- context [awaited ?r ?x] =>
        destruct (awaited_state r x) as (H1 & H2 & H3 & H4);
        rewrite ?H1, ?H3, ?H4, ?(awaited_browser r x) end.
      cbn [cam with_cam with_browser browser put_isCameraAvailable permissionStatus streamRef
           isCameraAvailable].
      match goal with |- context [awaited ?r ?x] =>
        destruct (awaited_state r x) as (H1' & H2' & H3' & H4');
        rewrite ?H1', ?H3', ?H4', ?(awaited_browser r x) end.
      cbn. rewrite !existsb_app. cbn. rewrite !orb_false_r. auto 10.
Qed.

Lemma failed_check_witness :
  check_fails strict_platform (page_load saved_denied true true) /\
  let w' := snd (checkCameraAvailability strict_platform (page_load saved_denied true true)) in
  error (cam w') = msg_check_failed /\
  permissionStatus (cam w') = prompt /\
  isCameraAvailable (cam w') = true /\
  render (cam w') = PromptPanel /\
  existsb is_getUserMedia (calls (browser w')) = false.
Proof.
  assert (Hf : check_fails strict_platform (page_load saved_denied true true)).
  { right. split; [reflexivity|]. split; [intros H; vm_compute in H; discriminate H|].
    right. split; [reflexivity|]. eexists; reflexivity. }
  split; [exact Hf|].
  destruct (failed_check_sets_message strict_platform (page_load saved_denied true true) Hf)
    as (H1 & H2 & _ & H4 & _ & _ & _ & H8).
  split; [exact H1|]. split; [exact H2|]. split; [exact H4|]. split; [|exact H8].
  unfold render. rewrite H4, H2. reflexivity.
Defined.

Lemma has_camera_devices p :
  has_camera p = true -> exists ds, devices p = inr ds /\ existsb is_videoinput ds = true.
Proof. unfold has_camera. destruct (devices p) as [e|ds]; [discriminate|]. eauto. Qed.

Lemma listening_media p st w : media (listening p st w) = media w.
Proof.
  unfold listening, queried, enumerated, media.
  cbn [cam with_cam with_browser browser put_permissionStatus streamRef].
  repeat (match goal with |- context [awaited ?r ?x] =>
            let H := fresh in
            destruct (awaited_state r x) as (H & _); rewrite ?H, ?(awaited_browser r x); clear H
          end; cbn [cam with_cam with_browser browser put_isCameraAvailable streamRef]).
  reflexivity.
Qed.

(** X7.  Mount on a device with a camera whose permission is not granted yet. *)
Theorem mount_without_grant_waits
    (p : Platform) (storage : gmap string string) (writable : bool)
    (answer : option PermissionState) :
  storage !! "cameraPermission" <> Some "granted" ->
  has_camera p = true ->
  permissions p = option_map inr answer ->
  answer <> Some granted ->
  let r := mount p storage true writable in
  fst r = inr tt /\
  isCameraAvailable (cam (snd r)) = true /\
  permissionStatus (cam (snd r)) = default prompt answer /\
  render (cam (snd r)) = (if decide (answer = Some denied) then DeniedPanel else PromptPanel) /\
  error (cam (snd r)) = "" /\
  streamRef (cam (snd r)) = None /\
  streams (browser (snd r)) = [] /\
  permission_listener (browser (snd r)) = bool_decide (is_Some answer) /\
  calls (browser (snd r)) =
    [call_getItem "cameraPermission"; call_enumerateDevices] ++
    match answer with Some _ => [call_permissions_query] | None => [] end /\
  localStorage (browser (snd r)) = storage.
Proof.
  intros Hs Hc Hp Ha. unfold mount. rewrite mount_start.
  rewrite check_unsaved by (assumption || reflexivity).
  destruct (has_camera_devices p Hc) as (ds & -> & ->). rewrite Hp.
  destruct answer as [[| |]|]; cbn [option_map]; try congruence.
  all: try (case_decide; [discriminate|]).
  all: unfold listening, queried, enumerated; destruct (rerender p); cbn; repeat split;
    reflexivity.
Qed.

Lemma mount_without_grant_witness :
  saved_denied !! "cameraPermission" <> Some "granted" /\
  has_camera denied_platform = true /\
  let r := mount denied_platform saved_denied true true in
  fst r = inr tt /\
  isCameraAvailable (cam (snd r)) = true /\
  permissionStatus (cam (snd r)) = denied /\
  render (cam (snd r)) = DeniedPanel /\
  streamRef (cam (snd r)) = None /\
  calls (browser (snd r)) =
    [call_getItem "cameraPermission"; call_enumerateDevices; call_permissions_query] /\
  localStorage (browser (snd r)) = saved_denied.
Proof.
  assert (Hs : saved_denied !! "cameraPermission" <> Some "granted")
    by (intros H; vm_compute in H; discriminate H).
  split; [exact Hs|]. split; [reflexivity|].
  assert (Ha : Some denied <> Some granted) by discriminate.
  destruct (mount_without_grant_waits denied_platform saved_denied true (Some denied)
              Hs eq_refl eq_refl Ha) as (H1 & H2 & H3 & H4 & _ & H6 & _ & _ & H9 & H10).
  repeat split; assumption.
Defined.

(** X8.  Mount on a device whose camera permission the platform reports as granted
    already: the only path on which the component starts the camera by itself. *)
Theorem mount_with_live_grant_shows_camera
    (p : Platform) (storage : gmap string string) (writable : bool) (n : nat) :
  storage !! "cameraPermission" <> Some "granted" ->
  has_camera p = true ->
  permissions p = Some (inr granted) ->
  rerender p = true ->
  acquisition p = Resolved (S n) ->
  let r := mount p storage true writable in
  fst r = inr tt /\
  isCameraAvailable (cam (snd r)) = true /\
  permissionStatus (cam (snd r)) = granted /\
  error (cam (snd r)) = "" /\
  render (cam (snd r)) = VideoView /\
  streamRef (cam (snd r)) = Some (first_stream (S n)) /\
  videoRef (cam (snd r)) = Some {| srcObject := Some (first_stream (S n)) |} /\
  live_streams (snd r) = [first_stream (S n)] /\
  sampling_guard (cam (snd r)) = true /\
  calls (browser (snd r)) =
    [call_getItem "cameraPermission"; call_enumerateDevices; call_permissions_query;
     call_getUserMedia; call_setItem "cameraPermission" "granted"] /\
  (writable = true ->
   localStorage (browser (snd r)) = <["cameraPermission" := "granted"]> storage).
Proof.
  intros Hs Hc Hp Hr Ha. unfold mount. rewrite mount_start.
  rewrite check_unsaved by (assumption || reflexivity).
  destruct (has_camera_devices p Hc) as (ds & -> & ->). rewrite Hp.
  case_decide; [|congruence]. rewrite Hr, Ha. cbn [fst snd].
  set (w0 := page_load storage true writable).
  assert (Hinv : stream_inv (listening p granted w0)).
  { apply (stream_inv_media w0); [symmetry; apply listening_media|apply page_load_inv]. }
  destruct (begun_inv _ Hinv) as [Hb Hn].
  destruct (resumed_live true (Resolved (S n)) _ Hb Hn) as [_ Hl].
  split; [reflexivity|].
  assert (Hnew : new_stream (S n) (browser (begun (listening p granted w0))) =
                 first_stream (S n)).
  { rewrite begun_browser, released_browser.
    unfold listening, queried, enumerated. rewrite Hr. reflexivity. }
  rewrite Hnew in Hl.
  unfold listening, queried, enumerated in *. rewrite Hr in *.
  split; [reflexivity|]. split; [reflexivity|]. split; [reflexivity|].
  split; [reflexivity|]. split; [reflexivity|]. split; [reflexivity|].
  split; [exact Hl|]. split; [reflexivity|].
  destruct writable; (split; [reflexivity|]); [reflexivity|discriminate].
Qed.

Lemma mount_with_live_grant_witness :
  (∅ : gmap string string) !! "cameraPermission" <> Some "granted" /\
  let r := mount granted_platform ∅ true true in
  fst r = inr tt /\
  permissionStatus (cam (snd r)) = granted /\
  render (cam (snd r)) = VideoView /\
  videoRef (cam (snd r)) = Some {| srcObject := Some (first_stream 1) |} /\
  live_streams (snd r) = [first_stream 1] /\
  sampling_guard (cam (snd r)) = true.
Proof.
  assert (Hs : (∅ : gmap string string) !! "cameraPermission" <> Some "granted")
    by (intros H; vm_compute in H; discriminate H).
  split; [exact Hs|].
  destruct (mount_with_live_grant_shows_camera granted_platform ∅ true 0
              Hs eq_refl eq_refl eq_refl eq_refl)
    as (H1 & _ & H3 & _ & H5 & _ & H7 & H8 & H9 & _).
  repeat split; assumption.
Defined.

(** * Part VII: the button, the permission listener and the teardown *)

Lemma attach_refs_prompt c :
  render c = PromptPanel -> attach_refs c = put_canvasRef None (put_videoRef None c).
Proof. unfold attach_refs. intros ->. reflexivity. Qed.

(** X9.  The button of the prompt panel: the panel has no video element, so a
    successful acquisition is stored and nothing else happens. *)
Theorem prompt_click_stays_on_prompt (rerender : bool) (n : nat) (w : World) :
  render (cam w) = PromptPanel ->
  videoRef (cam w) = None ->
  let w' := snd (requestCameraPermission rerender (Resolved n) w) in
  streamRef (cam w') = Some (new_stream n (browser w)) /\
  permissionStatus (cam w') = prompt /\
  render (cam w') = PromptPanel /\
  videoRef (cam w') = None /\
  error (cam w') = error (cam w) /\
  localStorage (browser w') = localStorage (browser w) /\
  calls_since w w' = [call_getUserMedia].
Proof.
  intros Hv Hn. rewrite request_run. cbn [snd].
  assert (Hp : permissionStatus (cam w) = prompt /\ isCameraAvailable (cam w) = true).
  { unfold render in Hv. destruct (isCameraAvailable (cam w)); [|discriminate].
    destruct (permissionStatus (cam w)); try discriminate. auto. }
  destruct Hp as [Hp Ha].
  assert (Hnone : videoRef (cam (awaited rerender (begun w))) = None).
  { rewrite awaited_begun_videoRef. destruct rerender; cbn [awaited]; [|exact Hn].
    cbn [commit cam with_cam]. rewrite attach_refs_prompt by exact Hv. reflexivity. }
  destruct (awaited_state rerender (begun w)) as (_ & He & Hav & Hps).
  rewrite begun_cam in He, Hav, Hps. cbn in He, Hav, Hps.
  unfold resumed, succeeded. cbn [cam with_cam with_browser browser]. rewrite Hnone.
  cbn [cam with_cam with_browser browser put_streamRef streamRef permissionStatus videoRef
       error]. rewrite awaited_browser, begun_browser, released_browser.
  repeat split; try assumption; try congruence.
  - unfold render. cbn. rewrite Hav, Hps, Ha, Hp. reflexivity.
  - apply calls_since_app. cbn. rewrite awaited_browser, begun_browser, released_browser.
    reflexivity.
Qed.

Lemma prompt_click_witness :
  render (cam prompt_world) = PromptPanel /\
  videoRef (cam prompt_world) = None /\
  let w' := snd (requestCameraPermission true (Resolved 1) prompt_world) in
  streamRef (cam w') = Some (first_stream 1) /\
  permissionStatus (cam w') = prompt /\
  render (cam w') = PromptPanel.
Proof.
  split; [reflexivity|]. split; [reflexivity|].
  destruct (prompt_click_stays_on_prompt true 1 prompt_world eq_refl eq_refl)
    as (H1 & H2 & H3 & _).
  repeat split; assumption.
Defined.

(** X10.  The teardown ([stopCurrentStream], also the cleanup of the mount effect):
    it makes no platform call, touches nothing of the component but
    [streamRef], and in a world that owns its streams it leaves every stream
    stopped. *)
Theorem teardown_releases_the_camera (w : World) :
  stream_inv w ->
  let r := stopCurrentStream w in
  fst r = inr tt /\
  cam (snd r) = put_streamRef None (cam w) /\
  live_streams (snd r) = [] /\
  (forall s, s ∈ streams (browser (snd r)) -> stream_stopped (browser (snd r)) s = true) /\
  calls (browser (snd r)) = calls (browser w) /\
  localStorage (browser (snd r)) = localStorage (browser w) /\
  stopCurrentStream (snd r) = (inr tt, snd r).
Proof.
  intros Hinv. rewrite stopCurrentStream_run. cbn [fst snd].
  assert (Hm : media (released w) = media (begun w)).
  { unfold media. rewrite begun_cam, begun_browser, released_cam. reflexivity. }
  destruct (begun_inv w Hinv) as [Hb Hn].
  assert (Hinv' : stream_inv (released w)) by (apply (stream_inv_media (begun w)); auto).
  assert (Hnone : streamRef (cam (released w)) = None) by (rewrite released_cam; reflexivity).
  split; [reflexivity|]. split; [apply released_cam|].
  split; [apply inv_none_live; assumption|]. split.
  { intros s Hs. apply inv_others_stopped; [exact Hinv'|exact Hs|]. rewrite Hnone. discriminate. }
  rewrite released_browser. split; [reflexivity|]. split; [reflexivity|].
  rewrite stopCurrentStream_run. f_equal. unfold released at 1. rewrite Hnone. reflexivity.
Qed.

Lemma teardown_witness :
  stream_inv (requests [(true, Resolved 2)] (page_load ∅ true true)) /\
  let r := stopCurrentStream (requests [(true, Resolved 2)] (page_load ∅ true true)) in
  fst r = inr tt /\
  live_streams (snd r) = [] /\
  stopCurrentStream (snd r) = (inr tt, snd r).
Proof.
  pose proof (requests_inv [(true, Resolved 2)] _ (page_load_inv ∅ true true)) as Hinv.
  split; [exact Hinv|].
  destruct (teardown_releases_the_camera _ Hinv) as (H1 & _ & H3 & _ & _ & _ & H7).
  repeat split; assumption.
Defined.

(** X11.  A change of the permission to anything but [granted] only records the new
    state: the stream that was running is not stopped. *)
Theorem revocation_keeps_the_stream
    (state : PermissionState) (rerender : bool) (o : Settled) (w : World) :
  state <> granted ->
  permission_listener (browser w) = true ->
  let r := permission_changed state rerender o w in
  fst r = inr tt /\
  snd r = with_cam (put_permissionStatus state) w /\
  live_streams (snd r) = live_streams w /\
  streamRef (cam (snd r)) = streamRef (cam w) /\
  render (cam (snd r)) =
    (if isCameraAvailable (cam w)
     then (if decide (state = denied) then DeniedPanel else PromptPanel)
     else NoCameraPanel).
Proof.
  intros Hs Hl. unfold permission_changed, bind, gets. rewrite Hl.
  unfold setPermissionStatus at 1. unfold modify at 1.
  case_decide; [contradiction|]. cbn [fst snd ret].
  split; [reflexivity|]. split; [reflexivity|]. split; [reflexivity|]. split; [reflexivity|].
  unfold render. cbn. destruct (isCameraAvailable (cam w)); cbn; [|reflexivity].
  destruct state; try contradiction; reflexivity.
Qed.

Lemma revocation_witness :
  denied <> granted /\
  permission_listener (browser running_world) = true /\
  let r := permission_changed denied true (Resolved 1) running_world in
  fst r = inr tt /\
  live_streams (snd r) = live_streams running_world /\
  render (cam (snd r)) = DeniedPanel.
Proof.
  assert (Hne : denied <> granted) by discriminate.
  split; [exact Hne|]. split; [reflexivity|].
  destruct (revocation_keeps_the_stream denied true (Resolved 1) running_world Hne eq_refl)
    as (H1 & _ & H3 & _ & H5).
  split; [exact H1|]. split; [exact H3|exact H5].
Defined.

(** X12.  The sampling effect and the render branches agree: once a render is
    committed, the guard of the effect passes exactly when the video view is
    what was rendered. *)
Theorem guard_passes_on_video_view (w : World) :
  (sampling_guard (cam (commit w)) = true <-> render (cam w) = VideoView) /\
  (sampling_guard (cam w) = true -> render (cam w) = VideoView).
Proof.
  destruct w as [[v c s e a p] b]. unfold sampling_guard, render, commit, attach_refs.
  cbn [cam with_cam isCameraAvailable permissionStatus videoRef canvasRef].
  split.
  - unfold render. cbn. destruct a, p; cbn; split; intros H; try reflexivity; try discriminate.
  - destruct a, p; cbn; intros H; try reflexivity;
      rewrite ?andb_false_r in H; try discriminate.
Qed.






(** * Part VIIb: several sampling loops at once *)

Lemma processFrame_step video s :
  has_picture video ->
  let s' := snd (Sampling.processFrame video s) in
  Sampling.callbacks s' = Sampling.callbacks s ++ [Sampling.next_handle s] /\
  Sampling.next_handle s' = S (Sampling.next_handle s) /\
  Sampling.animationFrame s' = Some (Sampling.next_handle s) /\
  Sampling.play_listener s' = Sampling.play_listener s /\
  Sampling.delivered s' = Sampling.delivered s ++ sampled video 1.
Proof.
  intros Hp. cbv zeta. unfold sampled.
  destruct (decide (Sampling.readyState video = Sampling.HAVE_ENOUGH_DATA)) as [Hr|Hr].
  - destruct (Hp Hr) as [Hw Hh].
    destruct (processFrame_ready video s Hr Hw Hh) as [cv ->]. cbn. auto.
  - rewrite (processFrame_waiting video s Hr). cbn. rewrite app_nil_r. auto.
Qed.

Lemma sampled_succ video k : sampled video 1 ++ sampled video k = sampled video (S k).
Proof. unfold sampled. case_decide; reflexivity. Qed.

Lemma callbacks_run video (l : list nat) s :
  has_picture video ->
  let s' := foldl (fun s1 _ => snd (Sampling.processFrame video s1)) s l in
  Sampling.callbacks s' = Sampling.callbacks s ++ seq (Sampling.next_handle s) (length l) /\
  Sampling.next_handle s' = Sampling.next_handle s + length l /\
  Sampling.play_listener s' = Sampling.play_listener s /\
  Sampling.delivered s' = Sampling.delivered s ++ sampled video (length l) /\
  Sampling.animationFrame s' =
    (if l is [] then Sampling.animationFrame s
     else Some (Sampling.next_handle s + length l - 1)).
Proof.
  intros Hp. revert s. induction l as [|x l IH]; intros s; cbn [foldl length seq].
  - unfold sampled. rewrite !app_nil_r, Nat.add_0_r. case_decide; rewrite ?app_nil_r; auto.
  - destruct (processFrame_step video s Hp) as (Hc & Hn & Ha & Hl & Hd).
    destruct (IH (snd (Sampling.processFrame video s))) as (IHc & IHn & IHl & IHd & IHa).
    rewrite IHc, IHn, IHl, IHd, IHa, Hc, Hn, Ha, Hl, Hd.
    rewrite <- !app_assoc, sampled_succ. cbn [app].
    repeat split; try reflexivity; try lia.
    destruct l; cbn [length]; f_equal; lia.
Qed.

(** X14.  An animation frame runs every pending callback: each hands one buffer to
    [onFrame] when the video is ready and each reschedules itself, so the
    number of loops never changes by itself; and the cleanup that follows
    takes away one of them, the last, whatever their number. *)
Theorem tick_runs_every_loop (video : Sampling.VideoState) (s : Sampling.Sampler) :
  has_picture video ->
  let loops := length (Sampling.callbacks s) in
  let s' := Sampling.handle s (Sampling.tick video) in
  Sampling.callbacks s' = seq (Sampling.next_handle s) loops /\
  Sampling.next_handle s' = Sampling.next_handle s + loops /\
  Sampling.delivered s' = Sampling.delivered s ++ sampled video loops /\
  length (sampled video loops) =
    (if decide (Sampling.readyState video = Sampling.HAVE_ENOUGH_DATA) then loops else 0) /\
  (0 < loops ->
   Sampling.callbacks (Sampling.handle s' Sampling.endSampling) =
   seq (Sampling.next_handle s) (loops - 1)).
Proof.
  intros Hp. cbv zeta. cbn [Sampling.handle]. unfold Sampling.run_callbacks.
  destruct (callbacks_run video (Sampling.callbacks s) (Sampling.put_callbacks [] s) Hp)
    as (Hc & Hn & _ & Hd & Ha).
  cbn [Sampling.put_callbacks Sampling.callbacks Sampling.next_handle Sampling.delivered
       Sampling.animationFrame app] in Hc, Hn, Hd, Ha.
  split; [exact Hc|]. split; [exact Hn|]. split; [exact Hd|]. split.
  { unfold sampled. case_decide; [apply repeat_length|reflexivity]. }
  intros Hpos. unfold Sampling.cleanup, bind, gets. rewrite Ha.
  destruct (Sampling.callbacks s) as [|x l] eqn:E; [cbn in Hpos; lia|].
  cbn [Sampling.cancelAnimationFrame modify snd Sampling.put_callbacks Sampling.callbacks].
  rewrite Hc. cbn [length]. replace (S (length l) - 1) with (length l) by lia.
  replace (Sampling.next_handle s + S (length l) - 1)
    with (Sampling.next_handle s + length l) by lia.
  generalize (Sampling.next_handle s) as n. generalize (length l) as k. clear.
  intros k n. rewrite seq_S, List.filter_app. cbn. rewrite Nat.eqb_refl. cbn.
  rewrite app_nil_r. apply forallb_filter_id. apply forallb_forall.
  intros x Hx. apply in_seq in Hx. apply negb_true_iff, Nat.eqb_neq. lia.
Qed.

Lemma tick_runs_every_loop_witness :
  has_picture small_video /\
  let s := Sampling.run [Sampling.play; Sampling.play; Sampling.play] mounted_sampler in
  let s' := Sampling.handle s (Sampling.tick small_video) in
  Sampling.callbacks s' = [4; 5; 6] /\
  length (Sampling.delivered s') = 3 /\
  Sampling.callbacks (Sampling.handle s' Sampling.endSampling) = [4; 5].
Proof.
  assert (Hp : has_picture small_video) by (intros _; cbn; lia).
  split; [exact Hp|].
  destruct (tick_runs_every_loop small_video
              (Sampling.run [Sampling.play; Sampling.play; Sampling.play] mounted_sampler) Hp)
    as (H1 & _ & H3 & H4 & H5).
  split; [exact H1|]. split.
  - rewrite H3, length_app, H4. reflexivity.
  - apply H5. cbn. lia.
Defined.

(** * Part VIII: the first revision *)

Lemma first_await_run r w : FirstRevision.await r w = (inr tt, first_awaited r w).
Proof. destruct r; reflexivity. Qed.

Lemma first_awaited_browser r w : browser (first_awaited r w) = browser w.
Proof. destruct r; reflexivity. Qed.

Lemma first_awaited_state r w :
  error (cam (first_awaited r w)) = error (cam w) /\
  isCameraAvailable (cam (first_awaited r w)) = isCameraAvailable (cam w) /\
  streamRef (cam (first_awaited r w)) = streamRef (cam w) /\
  permissionStatus (cam (first_awaited r w)) = permissionStatus (cam w).
Proof.
  destruct r; [|auto]. unfold first_awaited, FirstRevision.commit, FirstRevision.attach_refs.
  cbn [cam with_cam]. destruct (FirstRevision.render (cam w)); auto.
Qed.

Lemma first_check_failed_run e w :
  FirstRevision.check_failed e w = (inr tt, first_failed e w).
Proof.
  unfold FirstRevision.check_failed, first_failed, first_message, bind, console_log, modify.
  repeat case_decide; reflexivity.
Qed.

Lemma first_check_run p w :
  FirstRevision.checkCameraAvailability p w =
  (inr tt,
   match devices p with
   | inl e => first_failed e (first_enumerated p w)
   | inr ds =>
       if existsb is_videoinput ds then
         match acquisition p with
         | Resolved n => first_attached n (first_requested p w)
         | Rejected e => first_failed e (first_requested p w)
         end
       else with_cam (put_error FirstRevision.msg_no_camera)
              (with_cam (put_isCameraAvailable false) (first_enumerated p w))
   end).
Proof.
  unfold FirstRevision.checkCameraAvailability, try_catch.
  unfold bind at 1. unfold log_call at 1. unfold modify at 1.
  unfold bind at 1. rewrite first_await_run. fold (first_enumerated p w).
  destruct (devices p) as [e|ds].
  - unfold bind at 1. unfold throw at 1. apply first_check_failed_run.
  - unfold bind at 1. unfold ret at 1. unfold bind at 1.
    unfold setIsCameraAvailable at 1. unfold modify at 1.
    destruct (existsb is_videoinput ds); cbn [negb]; [|reflexivity].
    unfold bind at 1. unfold getUserMedia_request, log_call. unfold modify at 1.
    unfold bind at 1. rewrite first_await_run. fold (first_requested p w).
    destruct (acquisition p) as [n|e].
    + unfold first_attached. cbn [getUserMedia_settle]. unfold bind, gets, modify, ret.
      destruct (first_requested p w) as [[v c s e a ps] b]. destruct v; reflexivity.
    + unfold bind at 1. cbn [getUserMedia_settle]. unfold throw at 1.
      apply first_check_failed_run.
Qed.

Lemma first_enumerated_browser p w :
  browser (first_enumerated p w) =
  put_calls (calls (browser w) ++ [call_enumerateDevices]) (browser w).
Proof. unfold first_enumerated. rewrite first_awaited_browser. reflexivity. Qed.

Lemma first_enumerated_state p w :
  error (cam (first_enumerated p w)) = error (cam w) /\
  isCameraAvailable (cam (first_enumerated p w)) = isCameraAvailable (cam w) /\
  streamRef (cam (first_enumerated p w)) = streamRef (cam w) /\
  permissionStatus (cam (first_enumerated p w)) = permissionStatus (cam w).
Proof.
  unfold first_enumerated.
  match goal with |- context [first_awaited ?r ?x] =>
    destruct (first_awaited_state r x) as (-> & -> & -> & ->) end.
  auto.
Qed.

Lemma first_requested_browser p w :
  browser (first_requested p w) =
  put_calls (calls (browser w) ++ [call_enumerateDevices; call_getUserMedia]) (browser w).
Proof.
  unfold first_requested. rewrite first_awaited_browser. cbn [browser with_browser with_cam].
  rewrite first_enumerated_browser. cbn. rewrite <- app_assoc. reflexivity.
Qed.

Lemma first_requested_state p w :
  error (cam (first_requested p w)) = error (cam w) /\
  isCameraAvailable (cam (first_requested p w)) = true /\
  streamRef (cam (first_requested p w)) = streamRef (cam w) /\
  permissionStatus (cam (first_requested p w)) = permissionStatus (cam w).
Proof.
  unfold first_requested.
  match goal with |- context [first_awaited ?r ?x] =>
    destruct (first_awaited_state r x) as (-> & -> & -> & ->) end.
  cbn [cam with_cam with_browser put_isCameraAvailable error isCameraAvailable streamRef
       permissionStatus].
  destruct (first_enumerated_state p w) as (-> & _ & -> & ->). auto.
Qed.

Lemma first_attached_fields n w :
  browser (first_attached n w) = add_stream n (browser w) /\
  error (cam (first_attached n w)) = error (cam w) /\
  isCameraAvailable (cam (first_attached n w)) = isCameraAvailable (cam w) /\
  streamRef (cam (first_attached n w)) = streamRef (cam w) /\
  permissionStatus (cam (first_attached n w)) = permissionStatus (cam w) /\
  canvasRef (cam (first_attached n w)) = canvasRef (cam w) /\
  videoRef (cam (first_attached n w)) =
    option_map (fun _ => {| srcObject := Some (new_stream n (browser w)) |}) (videoRef (cam w)).
Proof. unfold first_attached. destruct (videoRef (cam w)) eqn:E; cbn; rewrite ?E; auto 10. Qed.

(** X15.  The first revision's mount effect, on every platform: it never throws,
    never touches the stored preference, and names the failure by one rule
    whether the enumeration or the acquisition failed. *)
Theorem first_revision_reports_by_name (p : Platform) (w : World) :
  let r := FirstRevision.checkCameraAvailability p w in
  fst r = inr tt /\
  localStorage (browser (snd r)) = localStorage (browser w) /\
  existsb is_storage_call (calls_since w (snd r)) = false /\
  permissionStatus (cam (snd r)) = permissionStatus (cam w) /\
  streamRef (cam (snd r)) = streamRef (cam w) /\
  match first_failure p with
  | Some e =>
      error (cam (snd r)) =
        (if decide (err_name e = "NotFoundError") then FirstRevision.msg_not_found
         else if decide (err_name e = "NotAllowedError") then FirstRevision.msg_not_allowed
         else FirstRevision.msg_other) /\
      streams (browser (snd r)) = streams (browser w)
  | None =>
      if has_camera p
      then error (cam (snd r)) = error (cam w) /\
           isCameraAvailable (cam (snd r)) = true /\
           length (streams (browser (snd r))) = S (length (streams (browser w)))
      else error (cam (snd r)) = FirstRevision.msg_no_camera /\
           isCameraAvailable (cam (snd r)) = false /\
           calls_since w (snd r) = [call_enumerateDevices]
  end.
Proof.
  cbv zeta. rewrite first_check_run. cbn [fst snd].
  unfold first_failure, has_camera.
  pose proof (first_enumerated_browser p w) as Hb1.
  destruct (first_enumerated_state p w) as (He1 & Ha1 & Hs1 & Hp1).
  pose proof (first_requested_browser p w) as Hb2.
  destruct (first_requested_state p w) as (He2 & Ha2 & Hs2 & Hp2).
  split; [reflexivity|].
  destruct (devices p) as [e|ds].
  { unfold first_failed, calls_since. cbn. rewrite Hb1, Hp1, Hs1. cbn.
    rewrite drop_app_length. auto 10. }
  destruct (existsb is_videoinput ds).
  2:{ unfold calls_since. cbn. rewrite Hb1, Hp1, Hs1. cbn. rewrite drop_app_length. auto 10. }
  destruct (acquisition p) as [n|e].
  - destruct (first_attached_fields n (first_requested p w)) as (Hb & He & Ha & Hs & Hp & _).
    unfold calls_since. rewrite Hb, He, Ha, Hs, Hp, Hb2, He2, Ha2, Hs2, Hp2. cbn.
    rewrite drop_app_length, length_app. cbn. repeat split; try reflexivity. lia.
  - unfold first_failed, calls_since. cbn. rewrite Hb2, Hp2, Hs2. cbn.
    rewrite drop_app_length. auto 10.
Qed.

Lemma ended_tracks_not_live (b : Browser) (s : MediaStream) :
  stream_live (put_tracks (ended_all (stream_tracks s) (tracks b)) b) s = false.
Proof.
  destruct (stream_live _ s) eqn:E; [|reflexivity]. exfalso.
  apply stream_live_spec in E as (t & Hin & Hl). cbn in Hl.
  rewrite ended_all_lookup, decide_True in Hl by exact Hin. discriminate.
Qed.

Lemma first_cleanup_run w :
  FirstRevision.cleanup w =
  (inr tt,
   match videoRef (cam w) with
   | Some {| srcObject := Some s |} =>
       with_browser (fun b => put_tracks (ended_all (stream_tracks s) (tracks b)) b) w
   | _ => w
   end).
Proof.
  unfold FirstRevision.cleanup, bind, gets.
  destruct (videoRef (cam w)) as [[[s|]]|]; try reflexivity.
  apply forEach_track_stop.
Qed.

(** X16.  The cleanup of the first revision stops the stream only through the video
    element: with the element and its stream at hand every track of the
    stream is ended; without them nothing happens at all. *)
Theorem first_revision_cleanup_needs_the_element (w : World) :
  let r := FirstRevision.cleanup w in
  fst r = inr tt /\
  cam (snd r) = cam w /\
  match videoRef (cam w) with
  | Some {| srcObject := Some s |} =>
      stream_live (browser (snd r)) s = false /\
      stream_stopped (browser (snd r)) s = true
  | _ => snd r = w
  end.
Proof.
  cbv zeta. rewrite first_cleanup_run. cbn [fst snd].
  destruct (videoRef (cam w)) as [[[s|]]|]; try (repeat split; reflexivity).
  split; [reflexivity|]. split; [reflexivity|]. cbn [browser with_browser]. split.
  - apply ended_tracks_not_live.
  - unfold stream_stopped. apply forallb_forall. intros t Ht.
    apply bool_decide_eq_true. cbn. rewrite ended_all_lookup.
    rewrite decide_True; [reflexivity|]. apply list_elem_of_In, Ht.
Qed.

Lemma live_streams_single (w : World) (s : MediaStream) :
  streams (browser w) = [s] -> stream_live (browser w) s = true -> live_streams w = [s].
Proof.
  intros Hs Hl. unfold live_streams. rewrite Hs. cbn.
  rewrite decide_True by exact Hl. reflexivity.
Qed.

Lemma live_streams_single_stopped (w : World) (s : MediaStream) :
  streams (browser w) = [s] -> stream_live (browser w) s = false -> live_streams w = [].
Proof.
  intros Hs Hl. unfold live_streams. rewrite Hs. cbn.
  rewrite decide_False; [reflexivity|]. rewrite Hl. discriminate.
Qed.

(** X17.  The first revision on a device with a camera that delivers: the stream
    goes to the video element, the sampling guard opens, and the cleanup, run
    while the element is still mounted, stops the one live stream. *)
Theorem first_revision_mount_shows_camera
    (p : Platform) (storage : gmap string string) (readable writable : bool) (n : nat) :
  has_camera p = true ->
  acquisition p = Resolved (S n) ->
  let r := FirstRevision.mount p storage readable writable in
  fst r = inr tt /\
  error (cam (snd r)) = "" /\
  isCameraAvailable (cam (snd r)) = true /\
  FirstRevision.render (cam (snd r)) = FirstRevision.VideoView /\
  videoRef (cam (snd r)) = Some {| srcObject := Some (first_stream (S n)) |} /\
  FirstRevision.sampling_guard (cam (snd r)) = true /\
  live_streams (snd r) = [first_stream (S n)] /\
  calls (browser (snd r)) = [call_enumerateDevices; call_getUserMedia] /\
  live_streams (snd (FirstRevision.cleanup (snd r))) = [].
Proof.
  intros Hc Ha. cbv zeta. unfold FirstRevision.mount. rewrite first_check_run.
  destruct (has_camera_devices p Hc) as (ds & -> & ->). rewrite Ha. cbn [fst snd].
  set (w0 := FirstRevision.commit (page_load storage readable writable)).
  assert (Hw : first_attached (S n) (first_requested p w0) =
               {| cam := {| videoRef := Some {| srcObject := Some (first_stream (S n)) |};
                            canvasRef := Some blank_canvas; streamRef := None; error := "";
                            isCameraAvailable := true; permissionStatus := prompt |};
                  browser := add_stream (S n)
                               (put_calls [call_enumerateDevices; call_getUserMedia]
                                  (browser (page_load storage readable writable))) |}).
  { unfold first_attached, first_requested, first_enumerated. subst w0.
    destruct (rerender p); reflexivity. }
  rewrite Hw. clear Hw.
  assert (Hl : live_streams
                 {| cam := {| videoRef := Some {| srcObject := Some (first_stream (S n)) |};
                              canvasRef := Some blank_canvas; streamRef := None; error := "";
                              isCameraAvailable := true; permissionStatus := prompt |};
                    browser := add_stream (S n)
                                 (put_calls [call_enumerateDevices; call_getUserMedia]
                                    (browser (page_load storage readable writable))) |}
               = [first_stream (S n)]).
  { apply live_streams_single; [reflexivity|]. cbn [browser].
    apply (new_stream_live n
             (put_calls [call_enumerateDevices; call_getUserMedia]
                (browser (page_load storage readable writable)))). }
  do 6 (split; [reflexivity|]). split; [exact Hl|]. split; [reflexivity|].
  rewrite first_cleanup_run. cbn [snd cam videoRef].
  apply live_streams_single_stopped with (s := first_stream (S n)); [reflexivity|].
  apply (ended_tracks_not_live
           (add_stream (S n)
              (put_calls [call_enumerateDevices; call_getUserMedia]
                 (browser (page_load storage readable writable))))
           (first_stream (S n))).
Qed.

Lemma first_revision_mount_witness :
  has_camera granted_platform = true /\
  let r := FirstRevision.mount granted_platform ∅ true true in
  fst r = inr tt /\
  videoRef (cam (snd r)) = Some {| srcObject := Some (first_stream 1) |} /\
  FirstRevision.sampling_guard (cam (snd r)) = true /\
  live_streams (snd r) = [first_stream 1] /\
  live_streams (snd (FirstRevision.cleanup (snd r))) = [].
Proof.
  split; [reflexivity|].
  destruct (first_revision_mount_shows_camera granted_platform ∅ true true 0 eq_refl eq_refl)
    as (H1 & _ & _ & _ & H5 & H6 & H7 & _ & H9).
  repeat split; assumption.
Defined.

(** * Part IX: the page *)

(** X18.  Loading the model always ends the loading state, however the two
    promises settle; the model is stored only when both resolved, and the
    error message is set exactly when one of them was rejected. *)
Theorem loadModel_settles_the_page
    (ready : JsError + unit) (loaded : JsError + Home.MobileNet) (h : Home.Page) :
  let r := Home.loadModel ready loaded h in
  fst r = inr tt /\
  Home.isLoading (snd r) = false /\
  Home.predictions (snd r) = Home.predictions h /\
  Home.tensors (snd r) = Home.tensors h /\
  match ready, loaded with
  | inr _, inr m =>
      Home.model (snd r) = Some m /\ Home.error (snd r) = Home.error h /\
      Home.console (snd r) = Home.console h /\
      (Home.error h = "" -> Home.render (snd r) = Home.MainView (Home.predictions h))
  | _, _ =>
      Home.model (snd r) = Home.model h /\ Home.error (snd r) = Home.msg_model_failed /\
      Home.console (snd r) = Home.console h ++ [console_error "Error loading model:"] /\
      Home.render (snd r) = Home.ErrorView Home.msg_model_failed
  end.
Proof.
  destruct ready as [e|[]], loaded as [e'|m]; cbn; repeat split; try reflexivity.
  intros He. unfold Home.render. cbn. rewrite He. reflexivity.
Qed.

Lemma processFrame_run img px cl h :
  Home.processFrame img px cl h =
  (inr tt,
   match Home.model h with
   | None => h
   | Some _ =>
       match px, cl with
       | inl _, _ => snd (Home.console_log (console_error "Error processing frame:") h)
       | inr _, inl _ =>
           snd (Home.console_log (console_error "Error processing frame:")
                  {| Home.model := Home.model h; Home.predictions := Home.predictions h;
                     Home.isLoading := Home.isLoading h; Home.error := Home.error h;
                     Home.tensors := {[Home.next_tensor h]} ∪ Home.tensors h;
                     Home.next_tensor := S (Home.next_tensor h);
                     Home.console := Home.console h |})
       | inr _, inr l =>
           {| Home.model := Home.model h; Home.predictions := l;
              Home.isLoading := Home.isLoading h; Home.error := Home.error h;
              Home.tensors := ({[Home.next_tensor h]} ∪ Home.tensors h) ∖ {[Home.next_tensor h]};
              Home.next_tensor := S (Home.next_tensor h);
              Home.console := Home.console h |}
       end
   end).
Proof.
  unfold Home.processFrame, bind, gets. destruct h as [m ps il er ts nt co]. cbn.
  destruct m; [|reflexivity]. destruct px as [e|[]]; [reflexivity|].
  destruct cl as [e|l]; reflexivity.
Qed.

Lemma fresh_tensor_returns (ts : gset nat) (t : nat) :
  (forall x, x ∈ ts -> x < t) -> ({[t]} ∪ ts) ∖ {[t]} = ts.
Proof.
  intros Hf. apply set_eq. intros x. rewrite elem_of_difference, elem_of_union, !elem_of_singleton.
  split.
  - intros [[->|Hx] Hne]; [contradiction|exact Hx].
  - intros Hx. split; [right; exact Hx|]. intros ->. specialize (Hf _ Hx). lia.
Qed.

Lemma fresh_tensor_size (ts : gset nat) (t : nat) :
  (forall x, x ∈ ts -> x < t) -> size ({[t]} ∪ ts) = S (size ts).
Proof.
  intros Hf. rewrite size_union.
  - rewrite size_singleton. reflexivity.
  - intros x Hx Hin. apply elem_of_singleton in Hx. subst x. specialize (Hf _ Hin). lia.
Qed.

(** X19.  One frame: the callback never throws; without a model it does nothing;
    with one, the predictions are replaced exactly when the classification
    succeeded, and the tensor of the frame is disposed exactly then: a failed
    classification leaves it allocated. *)
Theorem processFrame_disposes_on_success_only
    (img : Sampling.ImageData) (px : JsError + unit)
    (cl : JsError + list Home.Prediction) (h : Home.Page) :
  Home.tensors_fresh h ->
  let r := Home.processFrame img px cl h in
  fst r = inr tt /\
  Home.tensors_fresh (snd r) /\
  Home.model (snd r) = Home.model h /\
  Home.error (snd r) = Home.error h /\
  Home.isLoading (snd r) = Home.isLoading h /\
  match Home.model h with
  | None => snd r = h
  | Some _ =>
      match px, cl with
      | inr _, inr l =>
          Home.predictions (snd r) = l /\ Home.tensors (snd r) = Home.tensors h /\
          Home.console (snd r) = Home.console h
      | inr _, inl _ =>
          Home.predictions (snd r) = Home.predictions h /\
          Home.tensors (snd r) = {[Home.next_tensor h]} ∪ Home.tensors h /\
          size (Home.tensors (snd r)) = S (size (Home.tensors h)) /\
          Home.console (snd r) = Home.console h ++ [console_error "Error processing frame:"]
      | inl _, _ =>
          Home.predictions (snd r) = Home.predictions h /\
          Home.tensors (snd r) = Home.tensors h /\
          Home.console (snd r) = Home.console h ++ [console_error "Error processing frame:"]
      end
  end.
Proof.
  intros Hf. cbv zeta. rewrite processFrame_run. cbn [fst snd].
  split; [reflexivity|].
  destruct (Home.model h) eqn:Hm; [|auto 10].
  destruct px as [e|[]]; [cbn; auto 10|].
  destruct cl as [e|l]; cbn.
  - split.
    { intros t Ht. cbn in Ht. apply elem_of_union in Ht as [Ht|Ht].
      - apply elem_of_singleton in Ht. subst. cbn. lia.
      - specialize (Hf _ Ht). cbn. lia. }
    repeat split; try reflexivity. apply fresh_tensor_size, Hf.
  - rewrite (fresh_tensor_returns _ _ Hf). split.
    { intros t Ht. cbn in *. specialize (Hf _ Ht). lia. }
    repeat split; reflexivity.
Qed.

Lemma loaded_page_fresh : Home.tensors_fresh loaded_page.
Proof. intros t Ht. apply not_elem_of_empty in Ht. contradiction. Qed.

Lemma processFrame_witness :
  Home.tensors_fresh loaded_page /\
  let r := Home.processFrame blank_image (inr tt) (inl {| err_name := "Error" |}) loaded_page in
  fst r = inr tt /\
  Home.predictions (snd r) = [] /\
  Home.tensors (snd r) = {[0]} ∪ ∅ /\
  size (Home.tensors (snd r)) = 1.
Proof.
  split; [exact loaded_page_fresh|].
  destruct (processFrame_disposes_on_success_only blank_image (inr tt)
              (inl {| err_name := "Error" |}) loaded_page loaded_page_fresh)
    as (H1 & _ & _ & _ & _ & H6 & H7 & H8 & _).
  repeat split; assumption.
Defined.

Lemma last_cons_default {A} (d x : A) (l : list A) :
  default d (last (x :: l)) = default x (last l).
Proof. destruct l as [|y l]; [reflexivity|]. rewrite last_cons_cons. 
  destruct (last (y :: l)) eqn:E; [reflexivity|].
  apply last_None in E. discriminate.
Qed.

(** What one frame does to the four things the next theorem follows. *)
Lemma frame_step (f : Home.Frame) (h : Home.Page) (m : Home.MobileNet) :
  Home.tensors_fresh h ->
  Home.model h = Some m ->
  let h' := snd (Home.processFrame (Home.image f) (Home.pixels f) (Home.classified f) h) in
  Home.tensors_fresh h' /\
  Home.model h' = Some m /\
  size (Home.tensors h') = size (Home.tensors h) + (if Home.lost f then 1 else 0) /\
  Home.predictions h' = default (Home.predictions h) (Home.found f) /\
  Home.error h' = Home.error h /\ Home.isLoading h' = Home.isLoading h.
Proof.
  intros Hf Hm. cbv zeta. rewrite processFrame_run. cbn [snd]. rewrite Hm.
  unfold Home.lost, Home.found.
  destruct (Home.pixels f) as [e|[]]; [cbn; rewrite Nat.add_0_r; auto 10|].
  destruct (Home.classified f) as [e|l]; cbn.
  - split.
    { intros t Ht. cbn in Ht. apply elem_of_union in Ht as [Ht|Ht].
      - apply elem_of_singleton in Ht. subst. cbn. lia.
      - specialize (Hf _ Ht). cbn. lia. }
    rewrite (fresh_tensor_size _ _ Hf). repeat split; try assumption; lia.
  - rewrite (fresh_tensor_returns _ _ Hf). split.
    { intros t Ht. cbn in *. specialize (Hf _ Ht). lia. }
    repeat split; try assumption; lia.
Qed.

Lemma frames_cons f fs h :
  Home.frames (f :: fs) h =
  Home.frames fs (snd (Home.processFrame (Home.image f) (Home.pixels f) (Home.classified f) h)).
Proof. reflexivity. Qed.

(** X20.  A run of frames on a page whose model has loaded: the tensors still
    allocated grow by one for every frame whose classification failed, and
    the predictions shown are those of the last frame that was classified. *)
Theorem frames_leak_one_tensor_per_failure
    (fs : list Home.Frame) (h : Home.Page) (m : Home.MobileNet) :
  Home.tensors_fresh h ->
  Home.model h = Some m ->
  size (Home.tensors (Home.frames fs h)) =
    size (Home.tensors h) + length (List.filter Home.lost fs) /\
  Home.predictions (Home.frames fs h) =
    default (Home.predictions h) (last (omap Home.found fs)) /\
  Home.render (Home.frames fs h) =
    (if decide (Home.error h = "")
     then (if Home.isLoading h then Home.LoadingView
           else Home.MainView (default (Home.predictions h) (last (omap Home.found fs))))
     else Home.ErrorView (Home.error h)).
Proof.
  revert h. induction fs as [|f fs IH]; intros h Hf Hm.
  - cbn. rewrite Nat.add_0_r. auto.
  - destruct (frame_step f h m Hf Hm) as (Hf' & Hm' & Hs & Hp & He & Hl).
    rewrite frames_cons.
    destruct (IH _ Hf' Hm') as (IH1 & IH2 & IH3).
    rewrite IH1, IH2, IH3, Hs, Hp, He, Hl. cbn [List.filter omap].
    assert (Hd : default (default (Home.predictions h) (Home.found f))
                         (last (omap Home.found fs)) =
                 default (Home.predictions h) (last (omap Home.found (f :: fs)))).
    { clear.
      change (omap Home.found (f :: fs))
        with (match Home.found f with
              | Some y => y :: omap Home.found fs
              | None => omap Home.found fs
              end).
      destruct (Home.found f) as [l|]; cbn [default]; [|reflexivity].
      symmetry. apply last_cons_default. }
    rewrite Hd. split; [|auto].
    destruct (Home.lost f); cbn [length]; lia.
Qed.

Lemma frames_witness :
  Home.tensors_fresh loaded_page /\
  Home.model loaded_page = Some Home.loaded_model /\
  size (Home.tensors (Home.frames sample_frames loaded_page)) = 1 /\
  Home.predictions (Home.frames sample_frames loaded_page) = ladybird /\
  Home.render (Home.frames sample_frames loaded_page) = Home.MainView ladybird.
Proof.
  split; [exact loaded_page_fresh|]. split; [reflexivity|].
  exact (frames_leak_one_tensor_per_failure sample_frames loaded_page Home.loaded_model
           loaded_page_fresh eq_refl).
Defined.
